(** * AGOL feature-service backup: the incremental-backup decision engine

    A shallow embedding of
    [AGOL_Backup_Feature_Services_CreateReplicaMethod_noattach.py]:
    the ledger of last successful backups ([success_log_df]), its merge
    ([update_df]), the stale query, the per-item export loop
    ([create_replica], [move_items]) and the run log and commit
    ([create_run_log], [update_logs]).

    Conventions of the embedding.
    - A pandas cell is an [option]: [None] is NaN (a missing value).
    - A data frame is the list of its rows, in row order; duplicates of the
      index label are possible, as they are in pandas.
    - Every frame is laid out on the ten columns of the ledger.  A column a
      frame does not have is a column of NaN: [DataFrame.update] skips NaN
      cells and [DataFrame.append] fills the columns a row lacks with NaN,
      so both readings give the same ledger.
    - The portal, the file system, the export service and the clock are
      outside the script; they are a record of functions over an abstract
      [World].  Every call to them is recorded in a trace.
    - The ledger file holds the frame last written to it: what
      [pd.read_csv] returns is what [to_csv] was given.
    - The banner printed before the imports and the login to the portal are
      left out. *)

From Stdlib Require Import ZArith List String Ascii Bool Lia Sorted.
Import ListNotations.

Local Open Scope string_scope.
Local Open Scope Z_scope.

(** ** Text helpers *)

(** The backslash and the double quote, used in Windows paths and in the
    textual form of a layer. *)
Definition bs : string := String (ascii_of_nat 92) EmptyString.
Definition dq : string := String (ascii_of_nat 34) EmptyString.

Definition digit (n : Z) : string :=
  String (ascii_of_nat (48 + Z.to_nat (n mod 10))) EmptyString.

(** [%d], [%m], [%H], [%M], [%S]: two digits, zero padded. *)
Definition pad2 (n : Z) : string := digit (n / 10) ++ digit n.

(** [%Y]: four digits. *)
Definition pad4 (n : Z) : string :=
  digit (n / 1000) ++ digit (n / 100) ++ digit (n / 10) ++ digit n.

(** The proleptic Gregorian date (year, month, day) of a day count since
    1970-01-01, as [datetime] computes it. *)
Definition civil_from_days (days : Z) : Z * Z * Z :=
  let z := days + 719468 in
  let era := z / 146097 in
  let doe := z - era * 146097 in
  let yoe := (doe - doe / 1460 + doe / 36524 - doe / 146096) / 365 in
  let doy := doe - (365 * yoe + yoe / 4 - yoe / 100) in
  let mp := (5 * doy + 2) / 153 in
  let d := doy - (153 * mp + 2) / 5 + 1 in
  let m := if mp <? 10 then mp + 3 else mp - 9 in
  let y := yoe + era * 400 + (if m <=? 2 then 1 else 0) in
  (y, m, d).

(** [stamp_to_text(ts)]:
    [datetime.utcfromtimestamp(ts/1e3).strftime('%d/%m/%Y %H:%M:%S')],
    for a millisecond timestamp in the range of [datetime]
    (from the epoch to the year 9999). *)
Definition stamp_to_text (ts : Z) : string :=
  let secs := ts / 1000 in
  let '(y, m, d) := civil_from_days (secs / 86400) in
  let sod := secs mod 86400 in
  pad2 d ++ "/" ++ pad2 m ++ "/" ++ pad4 y ++ " " ++
  pad2 (sod / 3600) ++ ":" ++ pad2 (sod mod 3600 / 60) ++ ":" ++ pad2 (sod mod 60).

(** [", ".join(l)] and friends. *)
Fixpoint join (sep : string) (l : list string) : string :=
  match l with
  | [] => ""
  | [x] => x
  | x :: rest => x ++ sep ++ join sep rest
  end.

Fixpoint rev_string_aux (s acc : string) : string :=
  match s with
  | EmptyString => acc
  | String c s' => rev_string_aux s' (String c acc)
  end.

Definition rev_string (s : string) : string := rev_string_aux s "".

(** The first delimiter of the list that is a prefix of [s]
    (the alternation of [re] tries its branches in order). *)
Fixpoint match_delimiter (delimiters : list string) (s : string) : option string :=
  match delimiters with
  | [] => None
  | d :: rest => if prefix d s then Some d else match_delimiter rest s
  end.

(** [re.split(pattern, string)] for a pattern that is an alternation of
    non-empty literal delimiters: scan left to right, cut at every match.
    [skip] counts the characters of a matched delimiter still to drop and
    [cur] is the piece being read, reversed. *)
Fixpoint split_scan (delimiters : list string) (s : string) (skip : nat) (cur : string)
  : list string :=
  match s with
  | EmptyString => [rev_string cur]
  | String c s' =>
      match skip with
      | S n => split_scan delimiters s' n cur
      | O =>
          match match_delimiter delimiters s with
          | Some d => rev_string cur :: split_scan delimiters s' (Nat.pred (String.length d)) ""
          | None => split_scan delimiters s' O (String c cur)
          end
      end
  end.

(** [split_string(string, delimiters)] *)
Definition split_string (string : string) (delimiters : list String.string)
  : list String.string :=
  split_scan delimiters string O "".

(** ** Items of the portal *)

(** A layer or table of a feature service: its class name ([FeatureLayer]
    or [Table]), its url and [properties.editingInfo.lastEditDate]
    (milliseconds since the epoch). *)
Record layer := {
  layer_class : string;
  layer_url : string;
  lastEditDate : Z
}.

(** [str(x)] for a layer or a table. *)
Definition layer_str (x : layer) : string :=
  "<" ++ layer_class x ++ " url:" ++ dq ++ layer_url x ++ dq ++ ">".

(** What the script reads of an [arcgis.gis.Item].  The layers and tables
    of [FeatureLayerCollection(item.url, gis)] are those of the item. *)
Module Item.
Record t := mk {
  id : string;
  name : option string;
  title : string;
  url : string;
  modified : Z;
  _has_layers : bool;
  layers : list layer;
  tables : list layer
}.
End Item.

(** ** The ledger of last successful backups *)

Module LedgerRow.
Record t := mk {
  item_id : string;
  item_name : option string;
  item_title : option string;
  url : option string;
  updated_ts : option Z;
  backup_date : option string;
  backup_ts : option Z;
  zip_path : option string;
  last_edit_date : option string;
  last_edit_date_ts : option Z
}.
End LedgerRow.

Definition frame := list LedgerRow.t.

(** One pass of the loops of [item_info]:
    [if x.properties.editingInfo.lastEditDate >= last_edit_date_ts: ...] *)
Definition newer_edit (last_edit_date_ts : Z) (x : layer) : Z :=
  if lastEditDate x >=? last_edit_date_ts then lastEditDate x else last_edit_date_ts.

Definition item_last_edit_date_ts (item : Item.t) : Z :=
  if Item._has_layers item
  then fold_left newer_edit (Item.tables item) (fold_left newer_edit (Item.layers item) 0)
  else 0.

(** [item_info(item)]: the dictionary becomes a row of [items_df], which has
    no backup columns. *)
Definition item_info (item : Item.t) : LedgerRow.t :=
  let last_edit_date_ts := item_last_edit_date_ts item in
  {| LedgerRow.item_id := Item.id item;
     LedgerRow.item_name := Item.name item;
     LedgerRow.item_title := Some (Item.title item);
     LedgerRow.url := Some (Item.url item);
     LedgerRow.updated_ts := Some (Item.modified item);
     LedgerRow.backup_date := None;
     LedgerRow.backup_ts := None;
     LedgerRow.zip_path := None;
     LedgerRow.last_edit_date := Some (stamp_to_text last_edit_date_ts);
     LedgerRow.last_edit_date_ts := Some last_edit_date_ts |}.

(** [items_df = pd.DataFrame(item_info_list)] *)
Definition items_df (item_list : list Item.t) : frame := map item_info item_list.

(** ** Exceptions *)

Inductive exn :=
| SystemExit | IndexError | KeyError | ValueError | OSError
| UnboundLocalError | Exception.

Inductive result (A : Type) :=
| Ok (a : A)
| Raise (e : exn).
Arguments Ok {A} a.
Arguments Raise {A} e.

(** ** [update_df] *)

Definition keys (df : frame) : list string := map LedgerRow.item_id df.

Definition mem (x : string) (l : list string) : bool := existsb (String.eqb x) l.

Fixpoint unique (l : list string) : bool :=
  match l with
  | [] => true
  | x :: rest => negb (mem x rest) && unique rest
  end.

Fixpoint list_eqb (l1 l2 : list string) : bool :=
  match l1, l2 with
  | [], [] => true
  | x :: r1, y :: r2 => String.eqb x y && list_eqb r1 r2
  | _, _ => false
  end.

(** A cell of [df.update(other)]: the value of [other] unless it is NaN. *)
Definition update_cell {A : Type} (this that : option A) : option A :=
  match that with
  | Some v => Some v
  | None => this
  end.

Definition update_row (this that : LedgerRow.t) : LedgerRow.t :=
  {| LedgerRow.item_id := LedgerRow.item_id this;
     LedgerRow.item_name :=
       update_cell (LedgerRow.item_name this) (LedgerRow.item_name that);
     LedgerRow.item_title :=
       update_cell (LedgerRow.item_title this) (LedgerRow.item_title that);
     LedgerRow.url := update_cell (LedgerRow.url this) (LedgerRow.url that);
     LedgerRow.updated_ts :=
       update_cell (LedgerRow.updated_ts this) (LedgerRow.updated_ts that);
     LedgerRow.backup_date :=
       update_cell (LedgerRow.backup_date this) (LedgerRow.backup_date that);
     LedgerRow.backup_ts :=
       update_cell (LedgerRow.backup_ts this) (LedgerRow.backup_ts that);
     LedgerRow.zip_path :=
       update_cell (LedgerRow.zip_path this) (LedgerRow.zip_path that);
     LedgerRow.last_edit_date :=
       update_cell (LedgerRow.last_edit_date this) (LedgerRow.last_edit_date that);
     LedgerRow.last_edit_date_ts :=
       update_cell (LedgerRow.last_edit_date_ts this) (LedgerRow.last_edit_date_ts that) |}.

(** The row of [df] labelled [k], when the labels of [df] are unique. *)
Definition loc1 (df : frame) (k : string) : option LedgerRow.t :=
  find (fun r => String.eqb (LedgerRow.item_id r) k) df.

(** All the rows of [df] labelled [k] ([df.loc[[k], :]]). *)
Definition loc (df : frame) (k : string) : frame :=
  filter (fun r => String.eqb (LedgerRow.item_id r) k) df.

Definition update_opt (this : LedgerRow.t) (that : option LedgerRow.t) : LedgerRow.t :=
  match that with
  | Some u => update_row this u
  | None => this
  end.

(** [other.reindex_like(self)], on the index: [other] laid out on the labels
    of [self], a label [other] lacks giving a row of NaN.  Equal indexes are
    taken as they are; otherwise pandas refuses to reindex from an index
    with duplicate labels (ValueError).  This is pandas 1.x, the last to
    have the [DataFrame.append] that [update_df] calls. *)
Definition reindex_like (other self : frame) : result (list (option LedgerRow.t)) :=
  if list_eqb (keys other) (keys self) then Ok (map Some other)
  else if unique (keys other) then Ok (map (fun r => loc1 other (LedgerRow.item_id r)) self)
  else Raise ValueError.

Fixpoint update_rows (self : frame) (other : list (option LedgerRow.t)) : frame :=
  match self, other with
  | r :: self', o :: other' => update_opt r o :: update_rows self' other'
  | _, _ => self
  end.

(** [df.update(updating_df)], whose result replaces [df] (it works in
    place). *)
Definition update (df updating_df : frame) : result frame :=
  match reindex_like updating_df df with
  | Ok other => Ok (update_rows df other)
  | Raise e => Raise e
  end.

Fixpoint insert_sorted (x : string) (l : list string) : list string :=
  match l with
  | [] => [x]
  | y :: rest => if String.leb x y then x :: l else y :: insert_sorted x rest
  end.

Definition sort (l : list string) : list string := fold_right insert_sorted [] l.

Fixpoint dedup (l : list string) : list string :=
  match l with
  | [] => []
  | x :: rest => if mem x rest then dedup rest else x :: dedup rest
  end.

(** [a.difference(b)] on indexes: the labels of [a] that [b] lacks, each
    once, sorted. *)
Definition difference (a b : list string) : list string :=
  sort (dedup (filter (fun k => negb (mem k b)) a)).

(** [update_df(df, updating_df)].  The first component is [df] after the
    call, which [df.update] has changed in place; the second is the value
    returned, [updated_df]. *)
Definition update_df (df updating_df : frame) : result (frame * frame) :=
  match update df updating_df with
  | Raise e => Raise e
  | Ok df' =>
      let index_diff := difference (keys updating_df) (keys df') in
      let updated_df := (df' ++ flat_map (loc updating_df) index_diff)%list in
      Ok (df', updated_df)
  end.

(** ** The stale query *)

(** [a < b] on cells: false as soon as one side is NaN. *)
Definition cell_lt (a b : option Z) : bool :=
  match a, b with
  | Some x, Some y => x <? y
  | _, _ => false
  end.

(** [a != b] on cells: true as soon as one side is NaN. *)
Definition cell_ne (a b : option Z) : bool :=
  match a, b with
  | Some x, Some y => negb (x =? y)
  | _, _ => true
  end.

(** [query], row by row. *)
Definition query (r : LedgerRow.t) : bool :=
  cell_lt (LedgerRow.backup_ts r) (LedgerRow.last_edit_date_ts r)
  || cell_ne (LedgerRow.backup_ts r) (LedgerRow.backup_ts r).

(** [stale_list = success_log_df[query]['item_id'].values.tolist()] *)
Definition stale_list (success_log_df : frame) : list string :=
  keys (filter query success_log_df).

(** The guard of [create_replica], [move_items] and [create_run_log]:
    [(full_backup == True) or (item.id in stale_list)].  [stale_list] is
    bound only when [full_backup] is false; [or] does not read it
    otherwise. *)
Definition needs_backup (full_backup : bool) (stale_list : option (list string))
  (item : Item.t) : bool :=
  full_backup ||
  match stale_list with
  | Some l => mem (Item.id item) l
  | None => false
  end.

(** ** The run log *)

Module LogRow.
Record t := mk {
  item_id : string;
  item_name : option string;
  item_title : string;
  zip_path : string;
  status : string
}.
End LogRow.

(** What [export_df] writes: the ledger or a run log. *)
Inductive csv :=
| LedgerCsv (df : frame)
| RunLogCsv (df : list LogRow.t).

(** ** The world outside the script *)

(** The calls that leave the script, in the order they are made; [ok] tells
    whether the call returned ([true]) or raised ([false]). *)
Inductive event :=
| Print (msg : string)
| PrintItems (item_list : list Item.t)
| PrintIds (stale_list : list string)
| Makedirs (path : string) (ok : bool)
| CreateReplica (item : Item.t) (replica_name layers out_path : string) (ok : bool)
| Rmdir (path : string) (ok : bool)
| LogException (filename : string) (ok : bool)
| Rename (src dst : string) (ok : bool)
| Move (src dst : string) (ok : bool)
| ToCsv (df : csv) (path : string) (ok : bool).

(** The portal ([gis.content.search]), the file system ([os], [shutil],
    [zipfile], [logging], [DataFrame.to_csv]) and the export service
    ([data.replicas.create]).  A [None] result is a raised exception that
    leaves the world as it was; a failed export may leave anything behind. *)
Record Env := {
  World : Type;
  search : World -> string -> list Item.t;
  isdir : World -> string -> bool;
  listdir : World -> string -> option (list string);
  ZipFile : World -> string -> bool;
  strerror : World -> string -> string;
  makedirs : World -> string -> option World;
  rmdir : World -> string -> option World;
  rename : World -> string -> string -> option World;
  move : World -> string -> string -> option World;
  replicas_create : World -> Item.t -> string -> string -> string -> World * bool;
  logging_exception : World -> string -> option World;
  to_csv : World -> csv -> string -> option World
}.

(** The PARAMETERS of the script and the clock read when it starts. *)
Module Config.
Record t := mk {
  full_backup : bool;
  download_location : string;
  successful_backups : string;
  date_today : string;
  ts_today : Z
}.
End Config.

Section Script.

Variable E : Env.
Variable cfg : Config.t.

Record state := {
  world : World E;
  trace : list event   (* newest first *)
}.

(** A statement of the script: it changes the state and returns or
    raises. *)
Definition M (A : Type) : Type := state -> result A * state.

Definition ret {A} (a : A) : M A := fun s => (Ok a, s).

Definition raise {A} (e : exn) : M A := fun s => (Raise e, s).

Definition bind {A B} (m : M A) (k : A -> M B) : M B :=
  fun s =>
    match m s with
    | (Ok a, s') => k a s'
    | (Raise e, s') => (Raise e, s')
    end.

Notation "x <- m ;; k" := (bind m (fun x => k))
  (at level 61, m at next level, right associativity).
Notation "m ;; k" := (bind m (fun _ => k))
  (at level 61, right associativity).

(** [try: body except: handler] *)
Definition try_except {A} (body handler : M A) : M A :=
  fun s =>
    match body s with
    | (Ok a, s') => (Ok a, s')
    | (Raise _, s') => handler s'
    end.

(** [try: body except OSError as e: handler] *)
Definition try_except_OSError {A} (body handler : M A) : M A :=
  fun s =>
    match body s with
    | (Raise OSError, s') => handler s'
    | other => other
    end.

(** [for x in l: body(x)] *)
Fixpoint for_each {A} (l : list A) (body : A -> M unit) : M unit :=
  match l with
  | [] => ret tt
  | x :: rest => body x ;; for_each rest body
  end.

(** *** Calls to the world *)

Definition emit (ev : event) : M unit :=
  fun s => (Ok tt, {| world := world s; trace := ev :: trace s |}).

Definition call (f : World E -> option (World E)) (ev : bool -> event) (e : exn) : M unit :=
  fun s =>
    match f (world s) with
    | Some w => (Ok tt, {| world := w; trace := ev true :: trace s |})
    | None => (Raise e, {| world := world s; trace := ev false :: trace s |})
    end.

Definition read {A} (f : World E -> A) : M A := fun s => (Ok (f (world s)), s).

Definition print (msg : string) : M unit := emit (Print msg).

Definition os_path_isdir (path : string) : M bool := read (fun w => isdir E w path).

Definition os_makedirs (path : string) : M unit :=
  call (fun w => makedirs E w path) (Makedirs path) OSError.

Definition os_rmdir (path : string) : M unit :=
  call (fun w => rmdir E w path) (Rmdir path) OSError.

Definition os_rename (src dst : string) : M unit :=
  call (fun w => rename E w src dst) (Rename src dst) OSError.

Definition shutil_move (src dst : string) : M unit :=
  call (fun w => move E w src dst) (Move src dst) OSError.

Definition os_listdir (path : string) : M (list string) :=
  fun s =>
    match listdir E (world s) path with
    | Some l => (Ok l, s)
    | None => (Raise OSError, s)
    end.

(** [logging.basicConfig(filename = error_log, level = logging.ERROR)] and
    [logging.exception(str(Exception))]: the traceback of the exception
    being handled goes to the file. *)
Definition logging_exception_to (error_log : string) : M unit :=
  call (fun w => logging_exception E w error_log) (LogException error_log) OSError.

Definition df_to_csv (df : csv) (path : string) : M unit :=
  call (fun w => to_csv E w df path) (ToCsv df path) OSError.

(** [data.replicas.create(replica_name = ..., layers = ..., out_path = ...)]
    on the feature layer collection of [item]. *)
Definition data_replicas_create (item : Item.t) (replica_name layers out_path : string)
  : M unit :=
  fun s =>
    let '(w, ok) := replicas_create E (world s) item replica_name layers out_path in
    (if ok then Ok tt else Raise Exception,
     {| world := w;
        trace := CreateReplica item replica_name layers out_path ok :: trace s |}).

(** *** General functions *)

Definition run_log_folder : string := Config.download_location cfg ++ bs ++ "logs".

Definition success_log_csv_path : string :=
  Config.download_location cfg ++ bs ++ Config.successful_backups cfg.

Definition check_create_folder (path : string) : M unit :=
  b <- os_path_isdir path ;;
  if negb b then
    print (path ++ " doesn't exist - attempting to create it") ;;
    try_except (os_makedirs path)
               (print "Unable to create folder, check permissions")
  else ret tt.

Definition export_df (df : csv) (path : string) : M bool :=
  try_except
    (df_to_csv df path ;; ret true)
    (print ("Unable to write dataframe to " ++ path ++
            " - Open in Excel? Check permissions for the folder.") ;;
     ret false).

(** *** Search for hosted feature services to backup *)

Definition nl : string := String (ascii_of_nat 10) EmptyString.

(** Lines 151-164.  [item_csv] is the column of identifiers read from
    [csv_location]. *)
Definition search_items (item_csv : list string) : M (list Item.t) :=
  match item_csv with
  | [] => raise SystemExit
  | _ =>
      item_list <- read (fun w => flat_map (search E w) item_csv) ;;
      print (nl ++ "List of ArcGIS Online items to backup:") ;;
      emit (PrintItems item_list) ;;
      ret item_list
  end.

(** *** Update info on hosted feature services *)

(** Lines 203-216:
    [try: success_log_df = pd.read_csv(success_log_csv_path) ... except: ...]
    [ledger_file] is what the file holds, [None] when it cannot be read.
    Returns [full_backup] and [success_log_df]; [success_log_exists] is
    whether the latter is bound. *)
Definition open_success_log (ledger_file : option frame) : M (bool * option frame) :=
  match ledger_file with
  | Some success_log_df => ret (Config.full_backup cfg, Some success_log_df)
  | None =>
      print "Couldn't open log of successful backups, backing up all services" ;;
      print success_log_csv_path ;;
      print "------------------" ;;
      ret (true, None)
  end.

(** [insert(5,"backup_date","Not yet backed up")], [insert(6,"backup_ts",0)],
    [insert(7,"zip_path","Not yet backed up")] on a row. *)
Definition not_yet_backed_up (r : LedgerRow.t) : LedgerRow.t :=
  {| LedgerRow.item_id := LedgerRow.item_id r;
     LedgerRow.item_name := LedgerRow.item_name r;
     LedgerRow.item_title := LedgerRow.item_title r;
     LedgerRow.url := LedgerRow.url r;
     LedgerRow.updated_ts := LedgerRow.updated_ts r;
     LedgerRow.backup_date := Some "Not yet backed up";
     LedgerRow.backup_ts := Some 0;
     LedgerRow.zip_path := Some "Not yet backed up";
     LedgerRow.last_edit_date := LedgerRow.last_edit_date r;
     LedgerRow.last_edit_date_ts := LedgerRow.last_edit_date_ts r |}.

Definition lift {A} (r : result A) : M A := fun s => (r, s).

(** [if success_log_exists: ... else: ...] (lines 225-237).  With no item,
    [items_df] has no column at all: [set_index('item_id')] raises KeyError
    and [insert(5, ...)] raises IndexError. *)
Definition merge_items (success_log : option frame) (item_list : list Item.t) : M frame :=
  match item_list, success_log with
  | [], Some _ => raise KeyError
  | [], None => raise IndexError
  | _, Some success_log_df =>
      r <- lift (update_df success_log_df (items_df item_list)) ;;
      ret (snd r)
  | _, None => ret (map not_yet_backed_up (items_df item_list))
  end.

(** [if full_backup == False: ...] (lines 243-247) *)
Definition list_stale (full_backup : bool) (success_log_df : frame)
  : M (option (list string)) :=
  if full_backup then ret None
  else
    let stale_list := stale_list success_log_df in
    emit (PrintIds stale_list) ;;
    ret (Some stale_list).

(** *** Export to fgdb *)

Definition backups_folder (item : Item.t) : string :=
  Config.download_location cfg ++ bs ++ "backups" ++ bs ++ Item.title item.

Definition download_path (item : Item.t) : string :=
  backups_folder item ++ bs ++ Config.date_today cfg.

Definition error_log : string :=
  run_log_folder ++ bs ++ "error_" ++ Config.date_today cfg ++ ".log".

(** The loop that builds [lyrSeq]; the name stays unbound when the service
    has neither layer nor table.  The textual form of a layer ends with
    the second delimiter, so [split_results[1]] exists. *)
Definition lyrSeq (item : Item.t) : option string :=
  match (Item.layers item ++ Item.tables item)%list with
  | [] => None
  | dataNum_list =>
      Some (join ", "
              (map (fun x => nth 1 (split_string (layer_str x) ["FeatureServer/"; dq ++ ">"]) "")
                   dataNum_list))
  end.

Definition create_replica (full_backup : bool) (stale_list : option (list string))
  (item : Item.t) : M unit :=
  if needs_backup full_backup stale_list item then
    print "------------------" ;;
    print ("Exporting " ++ Item.title item ++ " to fgdb") ;;
    check_create_folder (download_path item) ;;
    try_except
      (match lyrSeq item with
       | Some layers =>
           data_replicas_create item (Item.title item ++ "_" ++ Config.date_today cfg)
                                layers (download_path item)
       | None => raise UnboundLocalError
       end)
      (print ("***Error exporting " ++ Item.title item ++ "***") ;;
       os_rmdir (download_path item) ;;
       check_create_folder run_log_folder ;;
       logging_exception_to error_log ;;
       print ("***Error logged in" ++ error_log ++ "***"))
  else ret tt.

(** *** Move files *)

Definition zip_name (item : Item.t) : string :=
  Item.title item ++ "_" ++ Config.date_today cfg ++ ".zip".

(** The body of the loop of [move_items]. *)
Definition move_item (full_backup : bool) (stale_list : option (list string))
  (item : Item.t) : M unit :=
  try_except
    (if needs_backup full_backup stale_list item then
       zipList <- os_listdir (download_path item) ;;
       let zipName := String.concat "" zipList in
       let oldName := download_path item ++ bs ++ zipName in
       let newName := download_path item ++ bs ++ zip_name item in
       os_rename oldName newName ;;
       let src_path := download_path item ++ bs ++ zip_name item in
       let dst_path := backups_folder item ++ bs ++ zip_name item in
       shutil_move src_path dst_path ;;
       let dirPath := download_path item in
       print (Item.title item ++ " BACKUP COMPLETED") ;;
       try_except_OSError
         (os_rmdir dirPath)
         (msg <- read (fun w => strerror E w dirPath) ;;
          print ("Error: " ++ dirPath ++ " : " ++ msg))
     else ret tt)
    (ret tt).

Definition move_items (full_backup : bool) (stale_list : option (list string))
  (item_list : list Item.t) : M unit :=
  for_each item_list (move_item full_backup stale_list).

(** *** Logs *)

Definition zip_path (item : Item.t) : string :=
  backups_folder item ++ bs ++ zip_name item.

Definition check_zip (item : Item.t) : M string :=
  opens <- read (fun w => ZipFile E w (zip_path item)) ;;
  if opens then ret "success"
  else
    print (Item.title item ++ " backup is invalid or doesn't exist") ;;
    ret "fail".

Fixpoint create_run_log (full_backup : bool) (stale_list : option (list string))
  (item_list : list Item.t) : M (list LogRow.t) :=
  match item_list with
  | [] => ret []
  | item :: rest =>
      status <- (if needs_backup full_backup stale_list item
                 then check_zip item
                 else ret "Backup still fresh") ;;
      let log_row :=
        {| LogRow.item_id := Item.id item;
           LogRow.item_name := Item.name item;
           LogRow.item_title := Item.title item;
           LogRow.zip_path := zip_path item;
           LogRow.status := status |} in
      log_list <- create_run_log full_backup stale_list rest ;;
      ret (log_row :: log_list)
  end.

Definition run_log_path : string :=
  run_log_folder ++ bs ++ Config.date_today cfg ++ "_backup_run_log.csv".

Definition export_run_log (full_backup : bool) (stale_list : option (list string))
  (item_list : list Item.t) : M (list LogRow.t) :=
  df <- create_run_log full_backup stale_list item_list ;;
  check_create_folder run_log_folder ;;
  export_df (RunLogCsv df) run_log_path ;;
  ret df.

(** A row of [run_df] after the two [insert]s of [update_logs], on the
    columns of the ledger ([status] is no column of the ledger). *)
Definition run_row (r : LogRow.t) : LedgerRow.t :=
  {| LedgerRow.item_id := LogRow.item_id r;
     LedgerRow.item_name := LogRow.item_name r;
     LedgerRow.item_title := Some (LogRow.item_title r);
     LedgerRow.url := None;
     LedgerRow.updated_ts := None;
     LedgerRow.backup_date := Some (stamp_to_text (Config.ts_today cfg));
     LedgerRow.backup_ts := Some (Config.ts_today cfg);
     LedgerRow.zip_path := Some (LogRow.zip_path r);
     LedgerRow.last_edit_date := None;
     LedgerRow.last_edit_date_ts := None |}.

(** [run_df[run_df['status']=='success']] *)
Definition successes (run_df : list LogRow.t) : frame :=
  map run_row (filter (fun r => String.eqb (LogRow.status r) "success") run_df).

(** [update_logs()]; returns [run_df] and [success_log_df], which
    [update_df] has changed in place. *)
Definition update_logs (full_backup : bool) (stale_list : option (list string))
  (item_list : list Item.t) (success_log_df : frame) : M (list LogRow.t * frame) :=
  run_df <- export_run_log full_backup stale_list item_list ;;
  r <- lift (update_df success_log_df (successes run_df)) ;;
  let success_log_df := fst r in
  export_df (LedgerCsv success_log_df) success_log_csv_path ;;
  ret (run_df, success_log_df).

(** *** The script, top to bottom *)

Definition main (item_csv : list string) (ledger_file : option frame)
  : M (list LogRow.t * frame) :=
  item_list <- search_items item_csv ;;
  opened <- open_success_log ledger_file ;;
  let full_backup := fst opened in
  success_log_df <- merge_items (snd opened) item_list ;;
  export_df (LedgerCsv success_log_df) success_log_csv_path ;;
  stale_list <- list_stale full_backup success_log_df ;;
  for_each item_list (create_replica full_backup stale_list) ;;
  move_items full_backup stale_list item_list ;;
  logs <- update_logs full_backup stale_list item_list success_log_df ;;
  print "Logs updated" ;;
  ret logs.

End Script.

Arguments world {E} s.
Arguments trace {E} s.

(** The ledger file after a trace: the last ledger written with success to
    [path], or what the file held before. *)
Fixpoint ledger_after (path : string) (before : option frame) (tr : list event)
  : option frame :=
  match tr with
  | [] => before
  | ToCsv (LedgerCsv df) p true :: older =>
      if String.eqb p path then Some df else ledger_after path before older
  | _ :: older => ledger_after path before older
  end.

(** ** Notions used in the statements *)

(** What [df.update(updating_df)] makes of a row of [df] when the labels of
    [updating_df] are unique. *)
Definition merge_lookup (updating_df : frame) (r : LedgerRow.t) : LedgerRow.t :=
  update_opt r (loc1 updating_df (LedgerRow.item_id r)).


(** Events by kind. *)
Definition ledger_write (ev : event) : Prop :=
  match ev with
  | ToCsv (LedgerCsv _) _ _ => True
  | _ => False
  end.

Definition export_call (ev : event) : Prop :=
  match ev with
  | CreateReplica _ _ _ _ _ => True
  | _ => False
  end.

Definition no_ledger (ev : event) : Prop := ~ ledger_write ev.

Definition routine (ev : event) : Prop := ~ ledger_write ev /\ ~ export_call ev.

Section Logic.

Variable E : Env.
Variable cfg : Config.t.

(** [m] returns from [s]; [Q] holds of its value, of the world it leaves and
    of the events it adds (newest first). *)
Definition completes {A} (m : M E A) (s : state E)
  (Q : A -> World E -> list event -> Prop) : Prop :=
  exists a s' evs,
    m s = (Ok a, s') /\ trace s' = (evs ++ trace s)%list /\ Q a (world s') evs.

(** Whether it returns or raises, [m] adds events of kind [C] only. *)
Definition emits {A} (C : event -> Prop) (m : M E A) : Prop :=
  forall s, exists evs, trace (snd (m s)) = (evs ++ trace s)%list /\ Forall C evs.

(** [m] never raises. *)
Definition total {A} (m : M E A) : Prop :=
  forall s, exists a, fst (m s) = Ok a.

(** The calls of the handler of [create_replica] that are not themselves
    guarded: removing the working directory and opening the error log. *)
Definition cleanup_succeeds : Prop :=
  (forall w path, rmdir E w path <> None) /\
  (forall w filename, logging_exception E w filename <> None).

(** The status [create_run_log] gives an item in world [w]. *)
Definition status_of (full_backup : bool) (stale_list : option (list string))
  (w : World E) (item : Item.t) : string :=
  if needs_backup full_backup stale_list item
  then if ZipFile E w (zip_path cfg item) then "success" else "fail"
  else "Backup still fresh".

Definition log_row_of (full_backup : bool) (stale_list : option (list string))
  (w : World E) (item : Item.t) : LogRow.t :=
  {| LogRow.item_id := Item.id item;
     LogRow.item_name := Item.name item;
     LogRow.item_title := Item.title item;
     LogRow.zip_path := zip_path cfg item;
     LogRow.status := status_of full_backup stale_list w item |}.

Definition run_log_of (full_backup : bool) (stale_list : option (list string))
  (w : World E) (item_list : list Item.t) : list LogRow.t :=
  map (log_row_of full_backup stale_list w) item_list.

(** What [export_df] adds when it writes the ledger [df] to [path]. *)
Definition ledger_written (df : frame) (path : string) (ev : event) : Prop :=
  routine ev \/ exists ok, ev = ToCsv (LedgerCsv df) path ok.




Definition quiet (ev : event) : Prop := ~ export_call ev.

(** [full_backup] once the ledger file has been tried. *)
Definition full_backup_of (ledger_file : option frame) : bool :=
  match ledger_file with
  | Some _ => Config.full_backup cfg
  | None => true
  end.





End Logic.

(** ** Successive runs *)

(** What [df.update(updating_df)] can make of a row: nothing, or an update
    by a row of [updating_df] with the same label. *)
Definition updated_by (updating_df : frame) (r r' : LedgerRow.t) : Prop :=
  r' = r \/
  exists u, In u updating_df /\ LedgerRow.item_id u = LedgerRow.item_id r /\ r' = update_row r u.

(** The run log marks an item of this identifier "success". *)
Definition verified_in (run_df : list LogRow.t) (item_id : string) : Prop :=
  exists lr,
    In lr run_df /\ LogRow.item_id lr = item_id /\ LogRow.status lr = "success".

(** A record from one run to the next: it keeps its identifier, and its
    [backup_ts] either stays or becomes [ts], the latter only for an
    identifier in [V]. *)
Definition row_advances (ts : Z) (V : string -> Prop) (r r' : LedgerRow.t) : Prop :=
  LedgerRow.item_id r' = LedgerRow.item_id r /\
  (LedgerRow.backup_ts r' = LedgerRow.backup_ts r \/
   (LedgerRow.backup_ts r' = Some ts /\ V (LedgerRow.item_id r))).

(** A record the run has created. *)
Definition row_new (ts : Z) (V : string -> Prop) (r : LedgerRow.t) : Prop :=
  LedgerRow.backup_ts r = None \/ LedgerRow.backup_ts r = Some 0 \/
  (LedgerRow.backup_ts r = Some ts /\ V (LedgerRow.item_id r)).

(** The ledger file before and after a run. *)
Definition ledger_step (ts : Z) (V : string -> Prop) (before after : option frame) : Prop :=
  match before, after with
  | Some L, Some L' =>
      exists kept extra,
        L' = (kept ++ extra)%list /\
        Forall2 (row_advances ts V) L kept /\
        Forall (row_new ts V) extra
  | Some _, None => False
  | None, Some L' => Forall (row_new ts V) L'
  | None, None => True
  end.

(** [a <= b] on cells that may be unset: once set, a cell stays set. *)
Definition cell_le (a b : option Z) : Prop :=
  match a with
  | None => True
  | Some x => exists y, b = Some y /\ x <= y
  end.

(** The ledger file across any number of runs: no record is lost or moved
    and no [backup_ts] decreases. *)
Definition ledger_grows (before after : option frame) : Prop :=
  match before with
  | None => True
  | Some L =>
      exists kept extra,
        after = Some (kept ++ extra)%list /\
        Forall2 (fun r r' => LedgerRow.item_id r' = LedgerRow.item_id r /\
                             cell_le (LedgerRow.backup_ts r) (LedgerRow.backup_ts r')) L kept
  end.

(** No record was backed up after [t]. *)
Definition not_after (t : Z) (ledger_file : option frame) : Prop :=
  forall L r b, ledger_file = Some L -> In r L -> LedgerRow.backup_ts r = Some b -> b <= t.

Section Runs.

Variable E : Env.

(** Where the installation keeps its ledger. *)
Variable download_location : string.
Variable successful_backups : string.

(** What changes from run to run: the switch, the clock, the list of
    identifiers and the world. *)
Record run_input := {
  run_full_backup : bool;
  run_date_today : string;
  run_ts_today : Z;
  run_item_csv : list string;
  run_world : World E
}.

Definition run_cfg (i : run_input) : Config.t :=
  {| Config.full_backup := run_full_backup i;
     Config.download_location := download_location;
     Config.successful_backups := successful_backups;
     Config.date_today := run_date_today i;
     Config.ts_today := run_ts_today i |}.

(** One run of the script on the ledger file [ledger_file]. *)
Definition run_script (ledger_file : option frame) (i : run_input)
  : result (list LogRow.t * frame) * state E :=
  main E (run_cfg i) (run_item_csv i) ledger_file (Build_state E (run_world i) []).

(** The ledger file after the run. *)
Definition run_once (ledger_file : option frame) (i : run_input) : option frame :=
  ledger_after (success_log_csv_path (run_cfg i)) ledger_file
               (trace (snd (run_script ledger_file i))).

(** The ledger file after a sequence of runs. *)
Definition run_all (ledger_file : option frame) (runs : list run_input) : option frame :=
  fold_left run_once runs ledger_file.

(** The identifiers the run log of the run marks "success". *)
Definition verified_by (ledger_file : option frame) (i : run_input) (item_id : string) : Prop :=
  exists run_df success_log_df,
    fst (run_script ledger_file i) = Ok (run_df, success_log_df) /\
    verified_in run_df item_id.

(** The clocks of the runs do not go back, starting from [t]. *)
Fixpoint increasing_from (t : Z) (runs : list run_input) : Prop :=
  match runs with
  | [] => True
  | i :: rest => t <= run_ts_today i /\ increasing_from (run_ts_today i) rest
  end.

End Runs.

(** ** A small world to run the script in

    Directories and files are lists of paths; every file is an archive that
    opens.  The export of an item succeeds when [export_ok] says so and the
    output folder exists, and then leaves one archive in that folder. *)
Module Sample.

Record disk := {
  dirs : list string;
  files : list string
}.

Definition remove_path (p : string) (l : list string) : list string :=
  filter (fun q => negb (String.eqb q p)) l.

Definition inside (dir file : string) : bool := prefix (dir ++ bs) file.

Definition base_name (dir file : string) : string :=
  substring (String.length dir + 1) (String.length file) file.

Definition rename_file (w : disk) (src dst : string) : option disk :=
  if mem src (files w)
  then Some {| dirs := dirs w; files := dst :: remove_path src (files w) |}
  else None.

Definition env (catalog : list Item.t) (export_ok : Item.t -> bool) : Env :=
  {| World := disk;
     search := fun _ q => filter (fun it => String.eqb (Item.id it) q) catalog;
     isdir := fun w p => mem p (dirs w);
     listdir := fun w p =>
       if mem p (dirs w)
       then Some (map (base_name p) (filter (inside p) (files w)))
       else None;
     ZipFile := fun w p => mem p (files w);
     strerror := fun _ _ => "The directory is not empty";
     makedirs := fun w p => Some {| dirs := p :: dirs w; files := files w |};
     rmdir := fun w p =>
       if mem p (dirs w) && negb (existsb (inside p) (files w))
       then Some {| dirs := remove_path p (dirs w); files := files w |}
       else None;
     rename := rename_file;
     move := rename_file;
     replicas_create := fun w item replica_name _ out_path =>
       if export_ok item && mem out_path (dirs w)
       then ({| dirs := dirs w;
                files := (out_path ++ bs ++ replica_name ++ ".zip") :: files w |}, true)
       else (w, false);
     logging_exception := fun w _ => Some w;
     to_csv := fun w _ _ => Some w |}.

(** The same world, except that [rmdir] removes a directory whatever its
    state. *)
Definition forgiving (catalog : list Item.t) (export_ok : Item.t -> bool) : Env :=
  let strict := env catalog export_ok in
  {| World := disk;
     search := search strict;
     isdir := isdir strict;
     listdir := listdir strict;
     ZipFile := ZipFile strict;
     strerror := strerror strict;
     makedirs := makedirs strict;
     rmdir := fun w p =>
       Some {| dirs := remove_path p (dirs w);
               files := filter (fun f => negb (inside p f)) (files w) |};
     rename := rename strict;
     move := move strict;
     replicas_create := replicas_create strict;
     logging_exception := logging_exception strict;
     to_csv := to_csv strict |}.

Definition start (catalog : list Item.t) (export_ok : Item.t -> bool)
  : state (env catalog export_ok) :=
  Build_state (env catalog export_ok) {| dirs := []; files := [] |} [].

Definition cfg : Config.t :=
  {| Config.full_backup := false;
     Config.download_location := "C:" ++ bs ++ "agol";
     Config.successful_backups := "Last_Successful_Backup.csv";
     Config.date_today := "20240301_000000";
     Config.ts_today := 1709251200000 |}.

Definition feature_layer (n : string) (edited : Z) : layer :=
  {| layer_class := "FeatureLayer";
     layer_url := "https://services.arcgis.com/o/arcgis/rest/services/s/FeatureServer/" ++ n;
     lastEditDate := edited |}.

Definition service (id title : string) (edits : list Z) : Item.t :=
  {| Item.id := id;
     Item.name := Some title;
     Item.title := title;
     Item.url := "https://services.arcgis.com/o/arcgis/rest/services/" ++ title ++ "/FeatureServer";
     Item.modified := 1700000000000;
     Item._has_layers := true;
     Item.layers := map (feature_layer "0") edits;
     Item.tables := [] |}.

Definition backed_up (id title : string) (edited backup : Z) : LedgerRow.t :=
  {| LedgerRow.item_id := id;
     LedgerRow.item_name := Some title;
     LedgerRow.item_title := Some title;
     LedgerRow.url :=
       Some ("https://services.arcgis.com/o/arcgis/rest/services/" ++ title ++
             "/FeatureServer");
     LedgerRow.updated_ts := Some 1700000000000;
     LedgerRow.backup_date := Some (stamp_to_text backup);
     LedgerRow.backup_ts := Some backup;
     LedgerRow.zip_path :=
       Some ("C:" ++ bs ++ "agol" ++ bs ++ "backups" ++ bs ++ title ++ bs ++ title ++
             "_20240101_000000.zip");
     LedgerRow.last_edit_date := Some (stamp_to_text edited);
     LedgerRow.last_edit_date_ts := Some edited |}.

Definition roads : Item.t := service "a" "Roads" [1709000000000].
Definition wells : Item.t := service "b" "Wells" [1709100000000].

(** Only the export of "a" succeeds. *)
Definition only_roads (item : Item.t) : bool := String.eqb (Item.id item) "a".

Definition fresh_disk : disk := {| dirs := []; files := [] |}.

(** Two runs a day apart, the second one a full backup. *)
Definition first_run : run_input (env [roads; wells] only_roads) :=
  Build_run_input (env [roads; wells] only_roads)
    false "20240301_000000" 1709251200000 ["a"; "b"] fresh_disk.

Definition second_run : run_input (env [roads; wells] only_roads) :=
  Build_run_input (env [roads; wells] only_roads)
    true "20240302_000000" 1709337600000 ["a"; "b"] fresh_disk.

End Sample.

(** ** Notions for the further properties *)


(** No delimiter matches at a position of [p] when [p] is followed by
    [rest]. *)
Fixpoint clean (delimiters : list string) (p rest : string) : bool :=
  match p with
  | EmptyString => true
  | String c p' =>
      match match_delimiter delimiters (p ++ rest) with
      | Some _ => false
      | None => clean delimiters p' rest
      end
  end.

(** The delimiters of [create_replica]. *)
Definition layer_delimiters : list string := ["FeatureServer/"; dq ++ ">"].

(** The layer [x] is served at [<base>FeatureServer/<n>], and neither its
    class and base nor [n] hold a delimiter. *)
Definition served_as (x : layer) (n : string) : Prop :=
  exists base,
    layer_url x = base ++ "FeatureServer/" ++ n /\
    clean layer_delimiters ("<" ++ layer_class x ++ " url:" ++ dq ++ base)
          ("FeatureServer/" ++ n ++ dq ++ ">") = true /\
    clean layer_delimiters n (dq ++ ">") = true.


(** What the export loop may add: a call of the export service only for
    an item of the list that needs a backup, under the replica name, the
    layer numbers and the dated folder of that item; a folder made or
    removed only where the loop works; no file written, renamed or
    moved. *)
Definition export_step (cfg : Config.t) (full_backup : bool)
  (stale_list : option (list string)) (item_list : list Item.t) (ev : event) : Prop :=
  match ev with
  | CreateReplica item replica_name layers out_path _ =>
      In item item_list /\
      needs_backup full_backup stale_list item = true /\
      replica_name = Item.title item ++ "_" ++ Config.date_today cfg /\
      lyrSeq item = Some layers /\
      out_path = download_path cfg item
  | Makedirs path _ =>
      path = run_log_folder cfg \/
      exists item, In item item_list /\ path = download_path cfg item
  | Rmdir path _ => exists item, In item item_list /\ path = download_path cfg item
  | LogException filename _ => filename = error_log cfg
  | Print _ => True
  | PrintItems _ | PrintIds _ | Rename _ _ _ | Move _ _ _ | ToCsv _ _ _ => False
  end.

(** Every event of [evs] (newest first) stands in [P] to the event just
    before it, if any. *)
Definition in_order (P : event -> option event -> Prop) (evs : list event) : Prop :=
  forall n ev, nth_error evs n = Some ev -> P ev (nth_error evs (S n)).

(** What [move_items] may add, [before] being the event just before [ev]:
    an archive is renamed to the name of an item that needs a backup; it is
    moved to the canonical path of the item right after that rename
    succeeded; the completion of the backup is announced right after the
    move succeeded; the dated folder of the item is removed right after the
    announcement, and a failure of that removal is reported. *)
Definition move_order (cfg : Config.t) (full_backup : bool)
  (stale_list : option (list string)) (item_list : list Item.t)
  (ev : event) (before : option event) : Prop :=
  match ev with
  | Rename _ dst _ =>
      exists item,
        In item item_list /\ needs_backup full_backup stale_list item = true /\
        dst = download_path cfg item ++ bs ++ zip_name cfg item
  | Move src dst _ =>
      exists item old_name,
        In item item_list /\ needs_backup full_backup stale_list item = true /\
        src = download_path cfg item ++ bs ++ zip_name cfg item /\
        dst = zip_path cfg item /\
        before = Some (Rename old_name src true)
  | Print msg =>
      (exists item src,
          In item item_list /\ msg = Item.title item ++ " BACKUP COMPLETED" /\
          before = Some (Move src (zip_path cfg item) true)) \/
      (exists path reason,
          msg = "Error: " ++ path ++ " : " ++ reason /\
          before = Some (Rmdir path false))
  | Rmdir path _ =>
      exists item,
        In item item_list /\ path = download_path cfg item /\
        before = Some (Print (Item.title item ++ " BACKUP COMPLETED"))
  | PrintItems _ | PrintIds _ | Makedirs _ _ | CreateReplica _ _ _ _ _
  | LogException _ _ | ToCsv _ _ _ => False
  end.

(** * Properties *)

(** ** Lists of labels *)

Lemma mem_In : forall x l, mem x l = true <-> In x l.
Proof.
  intros x l. unfold mem. rewrite existsb_exists. split.
  - intros [y [Hy Heq]]. apply String.eqb_eq in Heq. now subst.
  - intros H. exists x. split; [assumption | apply String.eqb_refl].
Qed.

Lemma mem_false : forall x l, mem x l = false <-> ~ In x l.
Proof.
  intros x l. rewrite <- mem_In. destruct (mem x l); split; congruence.
Qed.

Lemma unique_NoDup : forall l, unique l = true <-> NoDup l.
Proof.
  induction l as [|x l IH]; simpl.
  - split; [constructor | reflexivity].
  - rewrite andb_true_iff, negb_true_iff, mem_false, IH. split.
    + intros [H1 H2]. now constructor.
    + intros H. inversion H. now split.
Qed.

Lemma In_insert_sorted : forall x y l, In x (insert_sorted y l) <-> x = y \/ In x l.
Proof.
  intros x y l. induction l as [|z l IH]; simpl.
  - intuition.
  - destruct (String.leb y z); simpl; intuition.
Qed.

Lemma In_sort : forall x l, In x (sort l) <-> In x l.
Proof.
  intros x l. induction l as [|y l IH]; simpl.
  - reflexivity.
  - rewrite In_insert_sorted, IH. intuition.
Qed.

Lemma In_dedup : forall x l, In x (dedup l) <-> In x l.
Proof.
  intros x l. induction l as [|y l IH]; simpl.
  - reflexivity.
  - destruct (mem y l) eqn:Hm; simpl; rewrite IH.
    + apply mem_In in Hm. split; [auto | intros [->|H]; assumption].
    + reflexivity.
Qed.

Lemma In_difference : forall x a b, In x (difference a b) <-> In x a /\ ~ In x b.
Proof.
  intros x a b. unfold difference.
  rewrite In_sort, In_dedup, filter_In, negb_true_iff, mem_false. reflexivity.
Qed.

Lemma difference_nil : forall a b, (forall x, In x a -> In x b) -> difference a b = [].
Proof.
  intros a b H. destruct (difference a b) as [|x l] eqn:Hd; [reflexivity|].
  assert (Hx : In x (difference a b)) by (rewrite Hd; now left).
  apply In_difference in Hx. destruct Hx as [Ha Hb]. elim Hb. auto.
Qed.

(** ** The last edit of an item *)

Lemma newer_edit_fold_bounds :
  forall l a,
    a <= fold_left newer_edit l a /\
    Forall (fun x => lastEditDate x <= fold_left newer_edit l a) l /\
    (fold_left newer_edit l a = a \/ In (fold_left newer_edit l a) (map lastEditDate l)).
Proof.
  induction l as [|x l IH]; intros a; simpl.
  - repeat split; [lia | constructor | now left].
  - destruct (IH (newer_edit a x)) as [H1 [H2 H3]].
    assert (Hn : a <= newer_edit a x /\ lastEditDate x <= newer_edit a x /\
                 (newer_edit a x = a \/ newer_edit a x = lastEditDate x)).
    { unfold newer_edit. destruct (lastEditDate x >=? a) eqn:Hc; lia. }
    destruct Hn as [Ha [Hx Hcase]].
    repeat split.
    + lia.
    + constructor; [lia | assumption].
    + destruct H3 as [H3|H3].
      * rewrite H3. destruct Hcase as [Hc|Hc]; [now left | right; left; now rewrite Hc].
      * right; right; assumption.
Qed.

(** C7.  For an item whose type has layers and whose last-edit dates are
    epoch milliseconds (not negative), [last_edit_date_ts] is the maximum of
    [lastEditDate] over all its layers and all its tables: it bounds every
    one of them and, when there is at least one, it is one of them.  With
    neither layer nor table it is 0. *)
Theorem last_edit_date_ts_is_maximum :
  forall (item : Item.t),
    Item._has_layers item = true ->
    Forall (fun x => 0 <= lastEditDate x) (Item.layers item ++ Item.tables item) ->
    exists ts,
      LedgerRow.last_edit_date_ts (item_info item) = Some ts /\
      LedgerRow.last_edit_date (item_info item) = Some (stamp_to_text ts) /\
      Forall (fun x => lastEditDate x <= ts) (Item.layers item ++ Item.tables item) /\
      ((Item.layers item ++ Item.tables item)%list <> [] ->
       In ts (map lastEditDate (Item.layers item ++ Item.tables item))) /\
      ((Item.layers item ++ Item.tables item)%list = [] -> ts = 0).
Proof.
  intros item Hl Hpos.
  exists (item_last_edit_date_ts item).
  split; [reflexivity|]. split; [reflexivity|].
  unfold item_last_edit_date_ts. rewrite Hl.
  set (a := fold_left newer_edit (Item.layers item) 0).
  destruct (newer_edit_fold_bounds (Item.layers item) 0) as [L1 [L2 L3]].
  destruct (newer_edit_fold_bounds (Item.tables item) a) as [T1 [T2 T3]].
  fold a in L1, L2, L3.
  set (ts := fold_left newer_edit (Item.tables item) a) in *.
  split; [|split].
  - apply Forall_app. split; [|assumption].
    eapply Forall_impl; [|exact L2]. simpl. intros x Hx. lia.
  - intros Hne. rewrite map_app. apply in_or_app.
    destruct T3 as [T3|T3]; [|now right].
    destruct L3 as [L3|L3]; [|left; now rewrite T3].
    (* the maximum is 0: some layer or table was edited at 0 *)
    assert (Hz : ts = 0) by lia.
    assert (Hall : Forall (fun x => lastEditDate x = 0) (Item.layers item ++ Item.tables item)).
    { apply Forall_app in Hpos. destruct Hpos as [P1 P2].
      apply Forall_app. split.
      - rewrite Forall_forall in *. intros x Hx.
        specialize (P1 x Hx). specialize (L2 x Hx). simpl in *. lia.
      - rewrite Forall_forall in *. intros x Hx.
        specialize (P2 x Hx). specialize (T2 x Hx). simpl in *. lia. }
    rewrite Hz.
    destruct (Item.layers item) as [|x l].
    + right. destruct (Item.tables item) as [|y t]; [now elim Hne|].
      inversion Hall; subst. simpl. left. assumption.
    + left. inversion Hall; subst. simpl. left. assumption.
  - intros Hnil. apply app_eq_nil in Hnil. destruct Hnil as [Hn1 Hn2].
    subst ts a. rewrite Hn1, Hn2. reflexivity.
Qed.

(** C7 at a service with two layers and a table. *)
Lemma last_edit_date_ts_is_maximum_witness :
  exists ts,
    LedgerRow.last_edit_date_ts
      (item_info (Item.mk "a" (Some "roads") "Roads" "u" 9 true
                    [Build_layer "FeatureLayer" "u/FeatureServer/0" 5;
                     Build_layer "FeatureLayer" "u/FeatureServer/1" 12]
                    [Build_layer "Table" "u/FeatureServer/2" 7])) = Some ts /\
    ts = 12.
Proof.
  destruct (last_edit_date_ts_is_maximum
              (Item.mk "a" (Some "roads") "Roads" "u" 9 true
                 [Build_layer "FeatureLayer" "u/FeatureServer/0" 5;
                  Build_layer "FeatureLayer" "u/FeatureServer/1" 12]
                 [Build_layer "Table" "u/FeatureServer/2" 7]))
    as [ts [H1 _]].
  - reflexivity.
  - simpl. repeat (apply Forall_cons; [simpl; lia|]). apply Forall_nil.
  - exists ts. split; [exact H1|]. vm_compute in H1. congruence.
Defined.

(** ** [update_df] *)

Lemma list_eqb_eq : forall l1 l2, list_eqb l1 l2 = true -> l1 = l2.
Proof.
  induction l1 as [|x l1 IH]; destruct l2 as [|y l2]; simpl; try congruence.
  intros H. apply andb_true_iff in H. destruct H as [H1 H2].
  apply String.eqb_eq in H1. apply IH in H2. congruence.
Qed.

Lemma item_id_update_opt : forall r o, LedgerRow.item_id (update_opt r o) = LedgerRow.item_id r.
Proof. intros r [u|]; reflexivity. Qed.

Lemma keys_merge_lookup : forall upd df, keys (map (merge_lookup upd) df) = keys df.
Proof.
  intros upd df. unfold keys. rewrite map_map. apply map_ext.
  intros r. apply item_id_update_opt.
Qed.

Lemma In_keys : forall (df : frame) r, In r df -> In (LedgerRow.item_id r) (keys df).
Proof. intros df r H. unfold keys. now apply in_map. Qed.

Lemma loc1_In : forall df k r, loc1 df k = Some r -> In r df /\ LedgerRow.item_id r = k.
Proof.
  intros df k r H. unfold loc1 in H. apply find_some in H.
  destruct H as [H1 H2]. apply String.eqb_eq in H2. now split.
Qed.

Lemma loc1_None : forall df k, loc1 df k = None <-> ~ In k (keys df).
Proof.
  intros df k. unfold loc1, keys. induction df as [|r df IH]; simpl.
  - intuition.
  - destruct (String.eqb (LedgerRow.item_id r) k) eqn:He.
    + apply String.eqb_eq in He. split; [discriminate | intros H; elim H; now left].
    + apply String.eqb_neq in He. rewrite IH. intuition.
Qed.

Lemma loc1_NoDup : forall df r,
  NoDup (keys df) -> In r df -> loc1 df (LedgerRow.item_id r) = Some r.
Proof.
  unfold loc1, keys. induction df as [|x df IH]; intros r Hnd Hin; simpl in *.
  - contradiction.
  - inversion Hnd as [|? ? Hx Hnd']; subst.
    destruct Hin as [->|Hin].
    + now rewrite String.eqb_refl.
    + destruct (String.eqb (LedgerRow.item_id x) (LedgerRow.item_id r)) eqn:He.
      * apply String.eqb_eq in He. elim Hx. rewrite He. now apply in_map.
      * now apply IH.
Qed.

Lemma update_rows_positional : forall full other self,
  keys other = keys self ->
  (forall o, In o other -> loc1 full (LedgerRow.item_id o) = Some o) ->
  update_rows self (map Some other) = map (merge_lookup full) self.
Proof.
  intros full. induction other as [|o other IH]; intros [|r self] Hk Hall;
    simpl in *; try discriminate; try reflexivity.
  injection Hk as Hk1 Hk2.
  f_equal.
  - unfold merge_lookup. rewrite <- Hk1. rewrite Hall by now left. reflexivity.
  - apply IH; auto.
Qed.

Lemma update_rows_by_label : forall (f : LedgerRow.t -> option LedgerRow.t) self,
  update_rows self (map f self) = map (fun r => update_opt r (f r)) self.
Proof.
  intros f. induction self as [|r self IH]; simpl; [reflexivity | now rewrite IH].
Qed.

Lemma update_NoDup : forall df updating_df,
  NoDup (keys updating_df) ->
  update df updating_df = Ok (map (merge_lookup updating_df) df).
Proof.
  intros df upd Hnd. unfold update, reindex_like.
  destruct (list_eqb (keys upd) (keys df)) eqn:Heq.
  - apply list_eqb_eq in Heq. f_equal.
    apply update_rows_positional; [assumption|].
    intros o Ho. now apply loc1_NoDup.
  - apply unique_NoDup in Hnd. rewrite Hnd. f_equal.
    apply update_rows_by_label.
Qed.

Lemma update_df_NoDup : forall df updating_df,
  NoDup (keys updating_df) ->
  update_df df updating_df =
    Ok (map (merge_lookup updating_df) df,
        (map (merge_lookup updating_df) df ++
         flat_map (loc updating_df) (difference (keys updating_df) (keys df)))%list).
Proof.
  intros df upd Hnd. unfold update_df. rewrite update_NoDup by assumption.
  now rewrite keys_merge_lookup.
Qed.

Lemma keys_items_df : forall item_list, keys (items_df item_list) = map Item.id item_list.
Proof.
  intros l. unfold keys, items_df. rewrite map_map. reflexivity.
Qed.

Lemma update_cell_idem : forall A (x y : option A),
  update_cell (update_cell x y) y = update_cell x y.
Proof. intros A x [v|]; reflexivity. Qed.

Lemma update_cell_self : forall A (x : option A), update_cell x x = x.
Proof. intros A [v|]; reflexivity. Qed.

Lemma update_row_idem : forall r u, update_row (update_row r u) u = update_row r u.
Proof.
  intros r u. unfold update_row; simpl. now rewrite !update_cell_idem.
Qed.

Lemma update_row_self : forall r, update_row r r = r.
Proof.
  intros r. destruct r. unfold update_row; simpl. now rewrite !update_cell_self.
Qed.

Lemma merge_lookup_idem : forall upd r, merge_lookup upd (merge_lookup upd r) = merge_lookup upd r.
Proof.
  intros upd r. unfold merge_lookup. rewrite item_id_update_opt.
  destruct (loc1 upd (LedgerRow.item_id r)) as [u|]; simpl.
  - apply update_row_idem.
  - reflexivity.
Qed.

Lemma In_loc : forall df k r, In r (loc df k) <-> In r df /\ LedgerRow.item_id r = k.
Proof.
  intros df k r. unfold loc. rewrite filter_In, String.eqb_eq. reflexivity.
Qed.

(** C9.  The merge is idempotent: with incoming records of distinct
    identifiers, merging them into what a first merge returned changes
    nothing, neither in place nor in the value returned. *)
Theorem update_df_idempotent :
  forall (df updating_df : frame),
    NoDup (keys updating_df) ->
    exists df' updated_df,
      update_df df updating_df = Ok (df', updated_df) /\
      update_df updated_df updating_df = Ok (updated_df, updated_df).
Proof.
  intros df upd Hnd.
  rewrite update_df_NoDup by assumption.
  set (diff := difference (keys upd) (keys df)).
  set (merged := (map (merge_lookup upd) df ++ flat_map (loc upd) diff)%list).
  exists (map (merge_lookup upd) df), merged. split; [reflexivity|].
  rewrite update_df_NoDup by assumption.
  assert (Hfix : map (merge_lookup upd) merged = merged).
  { unfold merged. rewrite map_app, map_map. f_equal.
    - apply map_ext. intros r. apply merge_lookup_idem.
    - rewrite <- (map_id (flat_map (loc upd) diff)) at 2.
      apply map_ext_in. intros r Hr.
      apply in_flat_map in Hr. destruct Hr as [k [_ Hr]].
      apply In_loc in Hr. destruct Hr as [Hr _].
      unfold merge_lookup. rewrite loc1_NoDup by assumption. simpl.
      apply update_row_self. }
  assert (Hdiff : difference (keys upd) (keys merged) = []).
  { apply difference_nil. intros k Hk.
    unfold merged, keys. rewrite map_app. apply in_or_app.
    destruct (in_dec string_dec k (keys df)) as [Hin|Hout].
    - left. fold (keys (map (merge_lookup upd) df)). now rewrite keys_merge_lookup.
    - right. unfold keys in Hk. apply in_map_iff in Hk. destruct Hk as [r [Hr1 Hr2]].
      apply in_map_iff. exists r. split; [assumption|].
      apply in_flat_map. exists k. split.
      + apply In_difference. split; [|assumption].
        subst k. now apply In_keys.
      + apply In_loc. now split. }
  rewrite Hfix, Hdiff. simpl. now rewrite app_nil_r.
Qed.

(** C9 at a ledger of one record and two incoming records, one of them
    new. *)
Lemma update_df_idempotent_witness :
  exists df' updated_df,
    update_df [Sample.backed_up "a" "Roads" 5 9]
              (items_df [Sample.service "a" "Roads" [12]; Sample.service "b" "Wells" [3]])
      = Ok (df', updated_df) /\
    update_df updated_df
              (items_df [Sample.service "a" "Roads" [12]; Sample.service "b" "Wells" [3]])
      = Ok (updated_df, updated_df).
Proof.
  apply (update_df_idempotent
           [Sample.backed_up "a" "Roads" 5 9]
           (items_df [Sample.service "a" "Roads" [12]; Sample.service "b" "Wells" [3]])).
  apply unique_NoDup. reflexivity.
Defined.

Lemma NoDup_map_inj : forall (A B : Type) (f : A -> B) (l : list A) (x y : A),
  NoDup (map f l) -> In x l -> In y l -> f x = f y -> x = y.
Proof.
  intros A B f. induction l as [|a l IH]; intros x y Hnd Hx Hy Hf; simpl in *.
  - contradiction.
  - inversion Hnd as [|? ? Ha Hnd']; subst.
    destruct Hx as [->|Hx], Hy as [->|Hy].
    + reflexivity.
    + elim Ha. rewrite Hf. now apply in_map.
    + elim Ha. rewrite <- Hf. now apply in_map.
    + now apply IH.
Qed.

Lemma nth_error_map_app : forall (A : Type) (f : A -> A) (l rest : list A) i x,
  nth_error l i = Some x -> nth_error (map f l ++ rest) i = Some (f x).
Proof.
  intros A f l rest i x H.
  rewrite nth_error_app1.
  - rewrite nth_error_map, H. reflexivity.
  - rewrite length_map. apply nth_error_Some. congruence.
Qed.

Lemma merge_items_prior : forall E (s : state E) base item_list,
  NoDup (map Item.id item_list) ->
  item_list <> [] ->
  merge_items E (Some base) item_list s =
    (Ok (map (merge_lookup (items_df item_list)) base ++
         flat_map (loc (items_df item_list))
                  (difference (map Item.id item_list) (keys base)))%list, s).
Proof.
  intros E s base item_list Hnd Hne.
  destruct item_list as [|it rest]; [now elim Hne|].
  unfold merge_items, bind, lift, ret.
  rewrite update_df_NoDup by (rewrite keys_items_df; assumption).
  rewrite keys_items_df. reflexivity.
Qed.

(** C4.  In the classification merge, a record of the loaded ledger whose
    identifier is that of a fetched item takes the item's metadata and edit
    timestamps (a name the portal does not give leaves the old one) and
    keeps its [backup_date], [backup_ts] and [zip_path]; it stays at its
    place in the ledger. *)
Theorem classification_merge_keeps_backup_fields :
  forall (E : Env) (s : state E) (base : frame) (item_list : list Item.t),
    NoDup (map Item.id item_list) ->
    item_list <> [] ->
    exists merged,
      merge_items E (Some base) item_list s = (Ok merged, s) /\
      forall i r item,
        nth_error base i = Some r ->
        In item item_list ->
        Item.id item = LedgerRow.item_id r ->
        nth_error merged i =
          Some {| LedgerRow.item_id := LedgerRow.item_id r;
                  LedgerRow.item_name := update_cell (LedgerRow.item_name r) (Item.name item);
                  LedgerRow.item_title := Some (Item.title item);
                  LedgerRow.url := Some (Item.url item);
                  LedgerRow.updated_ts := Some (Item.modified item);
                  LedgerRow.backup_date := LedgerRow.backup_date r;
                  LedgerRow.backup_ts := LedgerRow.backup_ts r;
                  LedgerRow.zip_path := LedgerRow.zip_path r;
                  LedgerRow.last_edit_date :=
                    Some (stamp_to_text (item_last_edit_date_ts item));
                  LedgerRow.last_edit_date_ts := Some (item_last_edit_date_ts item) |}.
Proof.
  intros E s base item_list Hnd Hne.
  eexists. split; [now apply merge_items_prior|].
  intros i r item Hi Hin Hid.
  erewrite nth_error_map_app by eassumption.
  f_equal. unfold merge_lookup.
  assert (Hl : loc1 (items_df item_list) (LedgerRow.item_id r) = Some (item_info item)).
  { rewrite <- Hid. change (Item.id item) with (LedgerRow.item_id (item_info item)).
    apply loc1_NoDup.
    - now rewrite keys_items_df.
    - unfold items_df. now apply in_map. }
  rewrite Hl. reflexivity.
Qed.

(** C4 at a ledger of one record whose service has been edited since. *)
Lemma classification_merge_keeps_backup_fields_witness :
  exists merged r',
    merge_items (Sample.env [] (fun _ => true)) (Some [Sample.backed_up "a" "Roads" 5 9])
                [Sample.service "a" "Roads" [12]] (Sample.start [] (fun _ => true))
      = (Ok merged, Sample.start [] (fun _ => true)) /\
    nth_error merged 0 = Some r' /\
    LedgerRow.backup_ts r' = Some 9 /\
    LedgerRow.last_edit_date_ts r' = Some 12.
Proof.
  destruct (classification_merge_keeps_backup_fields
              (Sample.env [] (fun _ => true)) (Sample.start [] (fun _ => true))
              [Sample.backed_up "a" "Roads" 5 9] [Sample.service "a" "Roads" [12]])
    as [merged [H1 H2]].
  - apply unique_NoDup. reflexivity.
  - discriminate.
  - exists merged. eexists. split; [exact H1|]. split.
    + apply (H2 0%nat (Sample.backed_up "a" "Roads" 5 9) (Sample.service "a" "Roads" [12])).
      * reflexivity.
      * now left.
      * reflexivity.
    + split; reflexivity.
Defined.

Lemma In_merged_cases : forall upd base diff r,
  In r (map (merge_lookup upd) base ++ flat_map (loc upd) diff)%list ->
  In (LedgerRow.item_id r) (keys base) \/ In r upd.
Proof.
  intros upd base diff r H. apply in_app_or in H. destruct H as [H|H].
  - left. apply in_map_iff in H. destruct H as [r0 [<- Hr0]].
    unfold merge_lookup. rewrite item_id_update_opt. now apply In_keys.
  - right. apply in_flat_map in H. destruct H as [k [_ H]].
    apply In_loc in H. tauto.
Qed.

(** C5, amended.  An item the ledger does not know gets one row.  With no
    ledger to load the row carries the sentinels: [backup_ts] 0,
    [backup_date] and [zip_path] "Not yet backed up".  With a loaded ledger
    the row is appended with its three backup cells unset (NaN), and the
    stale query selects it. *)
Theorem new_item_row_never_backed_up :
  forall (E : Env) (s : state E) (success_log : option frame)
         (item_list : list Item.t) (item : Item.t),
    NoDup (map Item.id item_list) ->
    In item item_list ->
    match success_log with
    | Some base => ~ In (Item.id item) (keys base)
    | None => True
    end ->
    exists merged r,
      merge_items E success_log item_list s = (Ok merged, s) /\
      In r merged /\
      (forall r', In r' merged -> LedgerRow.item_id r' = Item.id item -> r' = r) /\
      match success_log with
      | None =>
          r = not_yet_backed_up (item_info item) /\
          LedgerRow.backup_ts r = Some 0 /\
          LedgerRow.backup_date r = Some "Not yet backed up" /\
          LedgerRow.zip_path r = Some "Not yet backed up"
      | Some _ =>
          r = item_info item /\
          LedgerRow.backup_ts r = None /\
          LedgerRow.backup_date r = None /\
          LedgerRow.zip_path r = None /\
          query r = true
      end.
Proof.
  intros E s [base|] item_list item Hnd Hin Hnew.
  - assert (Hne : item_list <> []) by (intros ->; contradiction).
    eexists. exists (item_info item).
    split; [now apply merge_items_prior|].
    assert (Hrow : In (item_info item) (items_df item_list))
      by (unfold items_df; now apply in_map).
    split; [|split].
    + apply in_or_app. right. apply in_flat_map. exists (Item.id item). split.
      * apply In_difference. split; [now apply in_map | assumption].
      * apply In_loc. now split.
    + intros r' Hr' Hid.
      apply In_merged_cases in Hr'. destruct Hr' as [Hr'|Hr'].
      * rewrite Hid in Hr'. contradiction.
      * apply (NoDup_map_inj _ _ LedgerRow.item_id (items_df item_list)); auto.
        fold (keys (items_df item_list)). now rewrite keys_items_df.
    + repeat split; reflexivity.
  - destruct item_list as [|it rest] eqn:Hl; [contradiction|]. rewrite <- Hl in *.
    exists (map not_yet_backed_up (items_df item_list)), (not_yet_backed_up (item_info item)).
    split; [now subst item_list|].
    split; [|split].
    + apply in_map. unfold items_df. now apply in_map.
    + intros r' Hr' Hid.
      unfold items_df in Hr'. rewrite map_map in Hr'.
      apply in_map_iff in Hr'. destruct Hr' as [it' [<- Hit']].
      f_equal. f_equal.
      apply (NoDup_map_inj _ _ Item.id item_list); auto.
    + repeat split; reflexivity.
Qed.

(** C5 at a ledger that knows service "a" only, when "b" is fetched too. *)
Lemma new_item_row_never_backed_up_witness :
  exists merged r,
    merge_items (Sample.env [] (fun _ => true)) (Some [Sample.backed_up "a" "Roads" 5 9])
                [Sample.service "a" "Roads" [12]; Sample.service "b" "Wells" [3]]
                (Sample.start [] (fun _ => true))
      = (Ok merged, Sample.start [] (fun _ => true)) /\
    In r merged /\ LedgerRow.item_id r = "b" /\ LedgerRow.backup_ts r = None.
Proof.
  destruct (new_item_row_never_backed_up
              (Sample.env [] (fun _ => true)) (Sample.start [] (fun _ => true))
              (Some [Sample.backed_up "a" "Roads" 5 9])
              [Sample.service "a" "Roads" [12]; Sample.service "b" "Wells" [3]]
              (Sample.service "b" "Wells" [3]))
    as [merged [r [H1 [H2 [_ [H3 [H4 _]]]]]]].
  - apply unique_NoDup. reflexivity.
  - right. now left.
  - simpl. intros [H|[]]. discriminate.
  - exists merged, r. split; [exact H1|]. split; [exact H2|].
    split; [now rewrite H3 | exact H4].
Defined.

(** C5 as stated fails: merged into a loaded ledger, a new item gets a row
    whose [backup_ts] is unset, not 0, and whose [backup_date] and
    [zip_path] are unset, not "Not yet backed up". *)
Lemma new_item_row_sentinels_counterexample :
  exists merged r,
    merge_items (Sample.env [] (fun _ => true)) (Some [Sample.backed_up "a" "Roads" 5 9])
                [Sample.service "a" "Roads" [12]; Sample.service "b" "Wells" [3]]
                (Sample.start [] (fun _ => true))
      = (Ok merged, Sample.start [] (fun _ => true)) /\
    In r merged /\
    LedgerRow.item_id r = Item.id (Sample.service "b" "Wells" [3]) /\
    LedgerRow.backup_ts r <> Some 0 /\
    LedgerRow.backup_date r <> Some "Not yet backed up" /\
    LedgerRow.zip_path r <> Some "Not yet backed up".
Proof.
  eexists. exists (item_info (Sample.service "b" "Wells" [3])).
  split; [reflexivity|].
  split; [right; left; reflexivity|].
  repeat split; discriminate.
Qed.

(** ** The stale query *)

Lemma query_spec : forall r,
  query r = true <->
  LedgerRow.backup_ts r = None \/
  exists b e, LedgerRow.backup_ts r = Some b /\ LedgerRow.last_edit_date_ts r = Some e /\ b < e.
Proof.
  intros r. unfold query, cell_lt, cell_ne.
  destruct (LedgerRow.backup_ts r) as [b|], (LedgerRow.last_edit_date_ts r) as [e|]; simpl.
  - rewrite Z.eqb_refl, orb_false_r, Z.ltb_lt. split.
    + intros H. right. now exists b, e.
    + intros [H|[b' [e' [Hb [He Hlt]]]]]; [discriminate | congruence].
  - rewrite Z.eqb_refl. simpl. split; [discriminate|].
    intros [H|[b' [e' [_ [He _]]]]]; discriminate.
  - split; [now left | reflexivity].
  - split; [now left | reflexivity].
Qed.

Lemma In_stale_list : forall df k,
  In k (stale_list df) <-> exists r, In r df /\ LedgerRow.item_id r = k /\ query r = true.
Proof.
  intros df k. unfold stale_list, keys. rewrite in_map_iff. split.
  - intros [r [Hk Hr]]. apply filter_In in Hr. exists r. tauto.
  - intros [r [Hr [Hk Hq]]]. exists r. split; [assumption|]. apply filter_In. tauto.
Qed.

(** C1.  On a ledger with one record per identifier, an item is selected
    for export exactly when the run is a full backup, or the [backup_ts] of
    its record is unset, or it is less than its [last_edit_date_ts]. *)
Theorem stale_iff_backup_unset_or_older :
  forall (E : Env) (s : state E) (full_backup : bool) (success_log_df : frame)
         (item : Item.t) (r : LedgerRow.t),
    NoDup (keys success_log_df) ->
    In r success_log_df ->
    LedgerRow.item_id r = Item.id item ->
    exists stale s',
      list_stale E full_backup success_log_df s = (Ok stale, s') /\
      (needs_backup full_backup stale item = true <->
       full_backup = true \/
       LedgerRow.backup_ts r = None \/
       exists b e,
         LedgerRow.backup_ts r = Some b /\ LedgerRow.last_edit_date_ts r = Some e /\ b < e).
Proof.
  intros E s full_backup df item r Hnd Hin Hid.
  destruct full_backup.
  - exists None, s. split; [reflexivity|].
    simpl. split; [now left | reflexivity].
  - eexists. eexists. split; [reflexivity|].
    unfold needs_backup. simpl.
    rewrite mem_In, In_stale_list, <- query_spec. split.
    + intros [r' [Hr' [Hk Hq]]]. right.
      assert (r' = r) as <-; [|assumption].
      apply (NoDup_map_inj _ _ LedgerRow.item_id df); auto. congruence.
    + intros [H|H]; [discriminate|]. exists r. auto.
Qed.

(** C1 at a ledger where "a" was backed up after its last edit and "b"
    before: "b" is selected, "a" is not. *)
Lemma stale_iff_backup_unset_or_older_witness :
  needs_backup false
    (Some (stale_list [Sample.backed_up "a" "Roads" 5 9; Sample.backed_up "b" "Wells" 7 6]))
    (Sample.service "b" "Wells" [7]) = true /\
  needs_backup false
    (Some (stale_list [Sample.backed_up "a" "Roads" 5 9; Sample.backed_up "b" "Wells" 7 6]))
    (Sample.service "a" "Roads" [5]) = false.
Proof.
  split.
  - destruct (stale_iff_backup_unset_or_older
                (Sample.env [] (fun _ => true)) (Sample.start [] (fun _ => true)) false
                [Sample.backed_up "a" "Roads" 5 9; Sample.backed_up "b" "Wells" 7 6]
                (Sample.service "b" "Wells" [7]) (Sample.backed_up "b" "Wells" 7 6))
      as [stale [s' [H1 H2]]].
    + apply unique_NoDup. reflexivity.
    + right. now left.
    + reflexivity.
    + injection H1 as <- _. apply H2. right. right. exists 6, 7.
      split; [reflexivity|]. split; [reflexivity | lia].
  - reflexivity.
Defined.

(** ** Reasoning about statements *)

Section Rules.

Variable E : Env.

Lemma completes_bind :
  forall A B (m : M E A) (k : A -> M E B) (s : state E)
         (Q1 : A -> World E -> list event -> Prop)
         (Q2 : B -> World E -> list event -> Prop),
    completes E m s Q1 ->
    (forall a s1 evs1,
        m s = (Ok a, s1) -> trace s1 = (evs1 ++ trace s)%list -> Q1 a (world s1) evs1 ->
        completes E (k a) s1 (fun b w evs2 => Q2 b w (evs2 ++ evs1)%list)) ->
    completes E (bind E m k) s Q2.
Proof.
  intros A B m k s Q1 Q2 (a & s1 & evs1 & Hm & Htr & HQ) Hk.
  destruct (Hk a s1 evs1 Hm Htr HQ) as (b & s2 & evs2 & Hk2 & Htr2 & HQ2).
  exists b, s2, (evs2 ++ evs1)%list. unfold bind. rewrite Hm.
  split; [assumption|]. split; [|assumption].
  rewrite Htr2, Htr. apply app_assoc.
Qed.

Lemma completes_weaken :
  forall A (m : M E A) (s : state E) (Q Q' : A -> World E -> list event -> Prop),
    completes E m s Q ->
    (forall a w evs, Q a w evs -> Q' a w evs) ->
    completes E m s Q'.
Proof.
  intros A m s Q Q' (a & s' & evs & Hm & Htr & HQ) Himp.
  exists a, s', evs. auto.
Qed.

Lemma completes_ret :
  forall A (a : A) (s : state E) (Q : A -> World E -> list event -> Prop),
    Q a (world s) [] -> completes E (ret E a) s Q.
Proof. intros A a s Q HQ. exists a, s, []. auto. Qed.

Lemma total_emits_completes :
  forall A (m : M E A) (C : event -> Prop) (s : state E),
    total E m -> emits E C m -> completes E m s (fun _ _ evs => Forall C evs).
Proof.
  intros A m C s Ht He.
  destruct (Ht s) as [a Ha]. destruct (He s) as [evs [H1 H2]].
  destruct (m s) as [r s'] eqn:Hm. simpl in *. subst r.
  exists a, s', evs. auto.
Qed.

(** *** Statements that never raise *)

Lemma total_ret : forall A (a : A), total E (ret E a).
Proof. intros A a s. now exists a. Qed.

Lemma total_emit : forall ev, total E (emit E ev).
Proof. intros ev s. now exists tt. Qed.

Lemma total_read : forall A (f : World E -> A), total E (read E f).
Proof. intros A f s. now exists (f (world s)). Qed.

Lemma total_bind : forall A B (m : M E A) (k : A -> M E B),
  total E m -> (forall a, total E (k a)) -> total E (bind E m k).
Proof.
  intros A B m k Hm Hk s. unfold bind.
  destruct (Hm s) as [a Ha]. destruct (m s) as [r s1]. simpl in Ha. subst r.
  apply Hk.
Qed.

Lemma total_try_except : forall A (body handler : M E A),
  total E handler -> total E (try_except E body handler).
Proof.
  intros A body handler Hh s. unfold try_except.
  destruct (body s) as [[a|e] s1].
  - now exists a.
  - apply Hh.
Qed.

Lemma total_try_except_OSError : forall A (body handler : M E A),
  (forall s a, fst (body s) = Raise a -> a = OSError) ->
  total E handler -> total E (try_except_OSError E body handler).
Proof.
  intros A body handler Hb Hh s. unfold try_except_OSError.
  specialize (Hb s). destruct (body s) as [[a|e] s1].
  - now exists a.
  - rewrite (Hb e eq_refl). apply Hh.
Qed.

Lemma total_for_each : forall A (l : list A) (body : A -> M E unit),
  (forall x, In x l -> total E (body x)) -> total E (for_each E l body).
Proof.
  intros A l body. induction l as [|x l IH]; intros H; simpl.
  - apply total_ret.
  - apply total_bind; [apply H; now left|].
    intros _. apply IH. intros y Hy. apply H. now right.
Qed.

(** *** The events a statement adds *)

Lemma emits_nothing : forall A (C : event -> Prop) (m : M E A),
  (forall s, snd (m s) = s) -> emits E C m.
Proof. intros A C m H s. exists []. rewrite H. now split. Qed.

Lemma emits_ret : forall A C (a : A), emits E C (ret E a).
Proof. intros. now apply emits_nothing. Qed.

Lemma emits_raise : forall A C e, emits E C (@raise E A e).
Proof. intros. now apply emits_nothing. Qed.

Lemma emits_lift : forall A C (r : result A), emits E C (lift E r).
Proof. intros. now apply emits_nothing. Qed.

Lemma emits_read : forall A C (f : World E -> A), emits E C (read E f).
Proof. intros. now apply emits_nothing. Qed.

Lemma emits_os_listdir : forall C path, emits E C (os_listdir E path).
Proof.
  intros C path. apply emits_nothing. intros s. unfold os_listdir.
  now destruct (listdir E (world s) path).
Qed.

Lemma emits_emit : forall (C : event -> Prop) ev, C ev -> emits E C (emit E ev).
Proof. intros C ev H s. exists [ev]. split; [reflexivity | now constructor]. Qed.

Lemma emits_call : forall (C : event -> Prop) f ev e,
  (forall ok, C (ev ok)) -> emits E C (call E f ev e).
Proof.
  intros C f ev e H s. unfold call.
  destruct (f (world s)); eexists [_]; (split; [reflexivity | constructor; auto]).
Qed.

Lemma emits_data_replicas_create : forall (C : event -> Prop) item replica_name layers out_path,
  (forall ok, C (CreateReplica item replica_name layers out_path ok)) ->
  emits E C (data_replicas_create E item replica_name layers out_path).
Proof.
  intros C item n l o H s. unfold data_replicas_create.
  destruct (replicas_create E (world s) item n l o) as [w ok].
  eexists [_]. split; [reflexivity | constructor; auto].
Qed.

Lemma emits_bind : forall A B C (m : M E A) (k : A -> M E B),
  emits E C m -> (forall a, emits E C (k a)) -> emits E C (bind E m k).
Proof.
  intros A B C m k Hm Hk s. unfold bind.
  destruct (Hm s) as [evs1 [H1 F1]]. destruct (m s) as [[a|e] s1]; simpl in *.
  - destruct (Hk a s1) as [evs2 [H2 F2]].
    exists (evs2 ++ evs1)%list. split.
    + rewrite H2, H1. apply app_assoc.
    + apply Forall_app. now split.
  - now exists evs1.
Qed.

Lemma emits_try_except : forall A C (body handler : M E A),
  emits E C body -> emits E C handler -> emits E C (try_except E body handler).
Proof.
  intros A C body handler Hb Hh s. unfold try_except.
  destruct (Hb s) as [evs1 [H1 F1]]. destruct (body s) as [[a|e] s1]; simpl in *.
  - now exists evs1.
  - destruct (Hh s1) as [evs2 [H2 F2]].
    exists (evs2 ++ evs1)%list. split.
    + rewrite H2, H1. apply app_assoc.
    + apply Forall_app. now split.
Qed.

Lemma emits_try_except_OSError : forall A C (body handler : M E A),
  emits E C body -> emits E C handler -> emits E C (try_except_OSError E body handler).
Proof.
  intros A C body handler Hb Hh s. unfold try_except_OSError.
  destruct (Hb s) as [evs1 [H1 F1]]. destruct (body s) as [[a|e] s1]; simpl in *.
  - now exists evs1.
  - destruct (Hh s1) as [evs2 [H2 F2]].
    destruct e; try (now exists evs1).
    exists (evs2 ++ evs1)%list. split.
    + rewrite H2, H1. apply app_assoc.
    + apply Forall_app. now split.
Qed.

Lemma emits_for_each : forall A C (l : list A) (body : A -> M E unit),
  (forall x, emits E C (body x)) -> emits E C (for_each E l body).
Proof.
  intros A C l body H. induction l as [|x l IH]; simpl.
  - apply emits_ret.
  - apply emits_bind; auto.
Qed.

Lemma emits_weaken : forall A (C C' : event -> Prop) (m : M E A),
  (forall ev, C ev -> C' ev) -> emits E C m -> emits E C' m.
Proof.
  intros A C C' m Himp H s. destruct (H s) as [evs [H1 H2]].
  exists evs. split; [assumption|]. eapply Forall_impl; eauto.
Qed.

End Rules.

Lemma routine_no_ledger : forall ev, routine ev -> no_ledger ev.
Proof. intros ev [H _]. exact H. Qed.

(** One step of a proof that a statement adds events of one kind only. *)
Ltac emits_step :=
  first
    [ apply emits_ret | apply emits_raise | apply emits_lift | apply emits_read
    | apply emits_os_listdir
    | apply emits_bind; [|intros ?]
    | apply emits_try_except
    | apply emits_try_except_OSError
    | apply emits_for_each; intros ?
    | apply emits_emit
    | apply emits_call; intros ?
    | apply emits_data_replicas_create; intros ?
    | match goal with
      | |- emits _ _ (if ?b then _ else _) => destruct b
      | |- emits _ _ (match ?x with _ => _ end) => destruct x
      end ].

Ltac total_step :=
  first
    [ apply total_ret | apply total_emit | apply total_read
    | apply total_bind; [|intros ?]
    | apply total_try_except
    | match goal with
      | |- total _ (if ?b then _ else _) => destruct b
      | |- total _ (match ?x with _ => _ end) => destruct x
      end ].

Section Specs.

Variable E : Env.
Variable cfg : Config.t.

Lemma total_check_create_folder : forall path, total E (check_create_folder E path).
Proof.
  intros path. unfold check_create_folder, os_path_isdir, print. repeat total_step.
Qed.

Lemma emits_check_create_folder : forall path, emits E routine (check_create_folder E path).
Proof.
  intros path. unfold check_create_folder, os_path_isdir, os_makedirs, print.
  repeat emits_step; split; simpl; tauto.
Qed.

Lemma total_export_df : forall df path, total E (export_df E df path).
Proof.
  intros df path. unfold export_df, print. repeat total_step.
Qed.

Lemma emits_export_run_log_csv : forall df path,
  emits E routine (export_df E (RunLogCsv df) path).
Proof.
  intros df path. unfold export_df, df_to_csv, print.
  repeat emits_step; split; simpl; tauto.
Qed.

End Specs.

Lemma cons_app_tail : forall (A : Type) (x : A) (l evs t : list A),
  l = (evs ++ t)%list -> x :: l = ((x :: evs) ++ t)%list.
Proof. intros. subst. reflexivity. Qed.

Lemma nil_app_tail : forall (A : Type) (t : list A), t = ([] ++ t)%list.
Proof. reflexivity. Qed.

(** Split a trace [e1 :: ... :: en :: t] into the new events and [t]. *)
Ltac new_events := repeat eapply cons_app_tail; apply nil_app_tail.

Section Phases.

Variable E : Env.
Variable cfg : Config.t.

Lemma completes_and :
  forall A (m : M E A) (s : state E) (Q1 Q2 : A -> World E -> list event -> Prop),
    completes E m s Q1 -> completes E m s Q2 ->
    completes E m s (fun a w evs => Q1 a w evs /\ Q2 a w evs).
Proof.
  intros A m s Q1 Q2 (a & s1 & evs1 & Hm1 & Ht1 & H1) (b & s2 & evs2 & Hm2 & Ht2 & H2).
  rewrite Hm1 in Hm2. injection Hm2 as <- <-.
  rewrite Ht1 in Ht2. apply app_inv_tail in Ht2. subst evs2.
  exists a, s1, evs1. auto.
Qed.


(** *** Search and load *)

Lemma emits_search_items : forall item_csv, emits E routine (search_items E item_csv).
Proof.
  intros item_csv. unfold search_items, print.
  repeat emits_step; split; simpl; tauto.
Qed.


Lemma open_success_log_spec : forall ledger_file (s : state E),
  completes E (open_success_log E cfg ledger_file) s
    (fun opened w evs =>
       opened = match ledger_file with
                | Some df => (Config.full_backup cfg, Some df)
                | None => (true, None)
                end /\
       w = world s /\ Forall routine evs /\
       (ledger_file = None ->
        In (Print "Couldn't open log of successful backups, backing up all services") evs)).
Proof.
  intros [df|] s.
  - exists (Config.full_backup cfg, Some df), s, [].
    repeat split; [constructor | discriminate].
  - eexists. eexists. eexists. split; [reflexivity|]. split.
    + simpl. new_events.
    + repeat split; [repeat constructor; simpl; tauto | intros _; simpl; tauto].
Qed.

Lemma merge_items_state : forall success_log item_list (s : state E),
  snd (merge_items E success_log item_list s) = s.
Proof.
  intros [base|] [|it l] s; try reflexivity.
  unfold merge_items, bind, lift, ret.
  destruct (update_df base (items_df (it :: l))) as [[df' updated_df]|e]; reflexivity.
Qed.


Lemma list_stale_spec : forall full_backup success_log_df (s : state E),
  completes E (list_stale E full_backup success_log_df) s
    (fun stale w evs =>
       stale = (if full_backup then None else Some (stale_list success_log_df)) /\
       w = world s /\ Forall routine evs).
Proof.
  intros [|] df s.
  - exists None, s, []. repeat split. constructor.
  - eexists. eexists. eexists. split; [reflexivity|]. split.
    + simpl. new_events.
    + repeat split. repeat constructor; simpl; tauto.
Qed.

(** *** Writing the ledger *)

Lemma emits_export_ledger : forall df path,
  emits E (ledger_written df path) (export_df E (LedgerCsv df) path).
Proof.
  intros df path. unfold export_df, df_to_csv, print.
  repeat emits_step.
  - right. now exists ok.
  - left. split; simpl; tauto.
Qed.

(** *** Moving the archives *)

Lemma total_move_items : forall full_backup stale_list item_list,
  total E (move_items E cfg full_backup stale_list item_list).
Proof.
  intros. unfold move_items. apply total_for_each. intros item _.
  unfold move_item. apply total_try_except. apply total_ret.
Qed.

Lemma emits_move_items : forall full_backup stale_list item_list,
  emits E routine (move_items E cfg full_backup stale_list item_list).
Proof.
  intros. unfold move_items, move_item, os_rename, shutil_move, os_rmdir, print.
  repeat emits_step; split; simpl; tauto.
Qed.

(** *** The run log *)

Lemma check_zip_spec : forall item (s : state E),
  completes E (check_zip E cfg item) s
    (fun status w evs =>
       status = (if ZipFile E (world s) (zip_path cfg item) then "success" else "fail") /\
       w = world s /\ Forall routine evs).
Proof.
  intros item s. unfold check_zip, completes, bind, read, print, emit, ret. simpl.
  destruct (ZipFile E (world s) (zip_path cfg item)).
  - exists "success", s, []. repeat split. constructor.
  - eexists. eexists. eexists. split; [reflexivity|]. split.
    + simpl. new_events.
    + repeat split. repeat constructor; simpl; tauto.
Qed.

Lemma create_run_log_spec : forall full_backup stale_list item_list (s : state E),
  completes E (create_run_log E cfg full_backup stale_list item_list) s
    (fun log_list w evs =>
       log_list = run_log_of E cfg full_backup stale_list (world s) item_list /\
       w = world s /\ Forall routine evs).
Proof.
  intros full stale item_list. induction item_list as [|item rest IH]; intros s.
  - apply completes_ret. repeat split. constructor.
  - simpl. eapply completes_bind.
    + instantiate (1 := fun status w evs =>
        status = status_of E cfg full stale (world s) item /\
        w = world s /\ Forall routine evs).
      unfold status_of. destruct (needs_backup full stale item).
      * apply check_zip_spec.
      * apply completes_ret. repeat split. constructor.
    + intros status s1 evs1 _ _ (Hst & Hw1 & F1).
      eapply completes_bind; [apply IH|].
      intros log_list s2 evs2 _ _ (Hl & Hw2 & F2).
      apply completes_ret. simpl. rewrite Hl, Hst, Hw2, Hw1. repeat split.
      apply Forall_app. now split.
Qed.

Lemma export_run_log_spec : forall full_backup stale_list item_list (s : state E),
  completes E (export_run_log E cfg full_backup stale_list item_list) s
    (fun df _ evs =>
       df = run_log_of E cfg full_backup stale_list (world s) item_list /\
       Forall routine evs).
Proof.
  intros full stale item_list s. unfold export_run_log.
  eapply completes_bind; [apply create_run_log_spec|].
  intros df s1 evs1 _ _ (Hdf & Hw1 & F1).
  eapply completes_bind.
  { apply total_emits_completes;
      [apply total_check_create_folder | apply emits_check_create_folder]. }
  intros u2 s2 evs2 _ _ F2.
  eapply completes_bind.
  { apply total_emits_completes;
      [apply total_export_df | apply emits_export_run_log_csv]. }
  intros u3 s3 evs3 _ _ F3.
  apply completes_ret. simpl. split; [assumption|].
  repeat (apply Forall_app; split); assumption.
Qed.

End Phases.

(** ** The commit *)

Lemma NoDup_map_filter : forall (A B : Type) (f : A -> B) (p : A -> bool) (l : list A),
  NoDup (map f l) -> NoDup (map f (filter p l)).
Proof.
  intros A B f p. induction l as [|x l IH]; intros H; simpl in *.
  - constructor.
  - inversion H as [|? ? Hx Hl]; subst. destruct (p x); simpl.
    + constructor; [|now apply IH].
      intros Hin. apply Hx. apply in_map_iff in Hin. destruct Hin as [y [Hy1 Hy2]].
      apply filter_In in Hy2. rewrite <- Hy1. apply in_map. tauto.
    + now apply IH.
Qed.

Lemma filter_map_comm : forall (A B : Type) (g : A -> B) (p : B -> bool) (l : list A),
  filter p (map g l) = map g (filter (fun x => p (g x)) l).
Proof.
  intros A B g p. induction l as [|x l IH]; simpl; [reflexivity|].
  destruct (p (g x)); simpl; now rewrite IH.
Qed.

Section Commit.

Variable E : Env.
Variable cfg : Config.t.
Variable full_backup : bool.
Variable stale_list : option (list string).

Lemma successes_run_log_of : forall w item_list,
  successes cfg (run_log_of E cfg full_backup stale_list w item_list) =
  map (fun item => run_row cfg (log_row_of E cfg full_backup stale_list w item))
      (filter (fun item =>
                 String.eqb (status_of E cfg full_backup stale_list w item) "success")
              item_list).
Proof.
  intros w item_list. unfold successes, run_log_of.
  rewrite filter_map_comm, map_map. reflexivity.
Qed.

Lemma keys_successes : forall w item_list,
  keys (successes cfg (run_log_of E cfg full_backup stale_list w item_list)) =
  map Item.id
      (filter (fun item =>
                 String.eqb (status_of E cfg full_backup stale_list w item) "success")
              item_list).
Proof.
  intros w item_list. rewrite successes_run_log_of. unfold keys. now rewrite map_map.
Qed.

Lemma NoDup_keys_successes : forall w item_list,
  NoDup (map Item.id item_list) ->
  NoDup (keys (successes cfg (run_log_of E cfg full_backup stale_list w item_list))).
Proof.
  intros w item_list H. rewrite keys_successes. now apply NoDup_map_filter.
Qed.

Lemma status_success : forall w item,
  status_of E cfg full_backup stale_list w item = "success" <->
  needs_backup full_backup stale_list item = true /\
  ZipFile E w (zip_path cfg item) = true.
Proof.
  intros w item. unfold status_of.
  destruct (needs_backup full_backup stale_list item);
    [destruct (ZipFile E w (zip_path cfg item))|];
    split; try tauto; try discriminate; intros [? ?]; discriminate.
Qed.

(** The row of the ledger for an item whose archive opened, and for one
    whose archive did not or that was not exported. *)
Lemma loc1_successes : forall w item_list item,
  NoDup (map Item.id item_list) ->
  In item item_list ->
  loc1 (successes cfg (run_log_of E cfg full_backup stale_list w item_list)) (Item.id item) =
  if String.eqb (status_of E cfg full_backup stale_list w item) "success"
  then Some (run_row cfg (log_row_of E cfg full_backup stale_list w item))
  else None.
Proof.
  intros w item_list item Hnd Hin.
  destruct (String.eqb (status_of E cfg full_backup stale_list w item) "success") eqn:Hs.
  - change (Item.id item) with
      (LedgerRow.item_id (run_row cfg (log_row_of E cfg full_backup stale_list w item))).
    apply loc1_NoDup; [now apply NoDup_keys_successes|].
    rewrite successes_run_log_of. apply in_map_iff. exists item. split; [reflexivity|].
    apply filter_In. now split.
  - apply loc1_None. rewrite keys_successes. intros H.
    apply in_map_iff in H. destruct H as [item' [Hid H']].
    apply filter_In in H'. destruct H' as [Hin' Hs'].
    assert (item' = item) by (apply (NoDup_map_inj _ _ Item.id item_list); auto).
    subst item'. congruence.
Qed.

Lemma update_logs_spec : forall item_list success_log_df (s : state E),
  NoDup (map Item.id item_list) ->
  completes E (update_logs E cfg full_backup stale_list item_list success_log_df) s
    (fun logs _ evs =>
       let run_df := run_log_of E cfg full_backup stale_list (world s) item_list in
       logs = (run_df, map (merge_lookup (successes cfg run_df)) success_log_df) /\
       Forall (ledger_written (snd logs) (success_log_csv_path cfg)) evs).
Proof.
  intros item_list L s Hnd. unfold update_logs.
  eapply completes_bind; [apply export_run_log_spec|].
  intros run_df s1 evs1 _ _ (Hdf & F1).
  unfold lift at 1.
  rewrite Hdf. rewrite update_df_NoDup by now apply NoDup_keys_successes.
  unfold bind at 1. simpl fst.
  eapply completes_bind.
  { apply total_emits_completes; [apply total_export_df | apply emits_export_ledger]. }
  intros u2 s2 evs2 _ _ F2.
  apply completes_ret. simpl. split; [reflexivity|].
  apply Forall_app. split; [assumption|].
  eapply Forall_impl; [|exact F1]. intros ev Hev. now left.
Qed.

End Commit.

(** C3.  For an item exported in the run, the commit hands its row to the
    merge exactly when the archive at its canonical path opens.  The record
    of the ledger with the item's identifier then gets [backup_date] and
    [backup_ts] of the run and the canonical [zip_path]; when the archive
    does not open the three cells are left as they were. *)
Theorem commit_iff_archive_opens :
  forall (E : Env) (cfg : Config.t) (full_backup : bool)
         (stale_list : option (list string)) (item_list : list Item.t)
         (success_log_df : frame) (s : state E),
    NoDup (map Item.id item_list) ->
    exists run_df success_log_df' s',
      update_logs E cfg full_backup stale_list item_list success_log_df s
        = (Ok (run_df, success_log_df'), s') /\
      forall item,
        In item item_list ->
        needs_backup full_backup stale_list item = true ->
        (In (Item.id item) (keys (successes cfg run_df)) <->
         ZipFile E (world s) (zip_path cfg item) = true) /\
        forall i r,
          nth_error success_log_df i = Some r ->
          LedgerRow.item_id r = Item.id item ->
          exists r',
            nth_error success_log_df' i = Some r' /\
            LedgerRow.item_id r' = LedgerRow.item_id r /\
            if ZipFile E (world s) (zip_path cfg item)
            then LedgerRow.backup_date r' = Some (stamp_to_text (Config.ts_today cfg)) /\
                 LedgerRow.backup_ts r' = Some (Config.ts_today cfg) /\
                 LedgerRow.zip_path r' = Some (zip_path cfg item)
            else LedgerRow.backup_date r' = LedgerRow.backup_date r /\
                 LedgerRow.backup_ts r' = LedgerRow.backup_ts r /\
                 LedgerRow.zip_path r' = LedgerRow.zip_path r.
Proof.
  intros E cfg full stale item_list L s Hnd.
  destruct (update_logs_spec E cfg full stale item_list L s Hnd)
    as ([run_df final] & s' & evs & Hrun & _ & Hlogs & _).
  simpl in Hlogs. injection Hlogs as Hdf Hfinal. subst run_df final.
  eexists. eexists. exists s'. split; [eassumption|].
  intros item Hin Hneeds.
  pose proof (loc1_successes E cfg full stale (world s) item_list item Hnd Hin) as Hloc.
  assert (Hst : String.eqb (status_of E cfg full stale (world s) item) "success"
                = ZipFile E (world s) (zip_path cfg item)).
  { unfold status_of. rewrite Hneeds.
    now destruct (ZipFile E (world s) (zip_path cfg item)). }
  rewrite Hst in Hloc.
  split.
  - destruct (ZipFile E (world s) (zip_path cfg item)).
    + split; [reflexivity|]. intros _.
      apply loc1_In in Hloc. destruct Hloc as [Hl _].
      apply In_keys in Hl. exact Hl.
    + apply loc1_None in Hloc. split; [tauto | discriminate].
  - intros i r Hi Hid.
    eexists. split; [now rewrite nth_error_map, Hi|].
    unfold merge_lookup. rewrite Hid, Hloc.
    destruct (ZipFile E (world s) (zip_path cfg item)); simpl; repeat split;
      assumption.
Qed.

(** C3 on a disk that holds the archive of "a" and none for "b". *)
Lemma commit_iff_archive_opens_witness :
  exists run_df success_log_df' s',
    update_logs (Sample.env [] (fun _ => true)) Sample.cfg true None
      [Sample.service "a" "Roads" [12]; Sample.service "b" "Wells" [3]]
      [Sample.backed_up "a" "Roads" 5 9; Sample.backed_up "b" "Wells" 2 7]
      (Build_state (Sample.env [] (fun _ => true))
         {| Sample.dirs := [];
            Sample.files := [zip_path Sample.cfg (Sample.service "a" "Roads" [12])] |} [])
      = (Ok (run_df, success_log_df'), s') /\
    map LedgerRow.backup_ts success_log_df' = [Some (Config.ts_today Sample.cfg); Some 7].
Proof.
  destruct (commit_iff_archive_opens
              (Sample.env [] (fun _ => true)) Sample.cfg true None
              [Sample.service "a" "Roads" [12]; Sample.service "b" "Wells" [3]]
              [Sample.backed_up "a" "Roads" 5 9; Sample.backed_up "b" "Wells" 2 7]
              (Build_state (Sample.env [] (fun _ => true))
                 {| Sample.dirs := [];
                    Sample.files := [zip_path Sample.cfg (Sample.service "a" "Roads" [12])] |} []))
    as (run_df & final & s' & Hrun & _).
  - apply unique_NoDup. reflexivity.
  - exists run_df, final, s'. split; [exact Hrun|].
    vm_compute in Hrun. injection Hrun as _ <- _. reflexivity.
Defined.

(** ** The export loop *)

Section ExportLoop.

Variable E : Env.
Variable cfg : Config.t.
Variable full_backup : bool.
Variable stale_list : option (list string).

Lemma emits_create_replica : forall item,
  emits E no_ledger (create_replica E cfg full_backup stale_list item).
Proof.
  intros item.
  unfold create_replica, check_create_folder, os_path_isdir, os_makedirs, os_rmdir,
    logging_exception_to, print.
  repeat emits_step; unfold no_ledger; simpl; tauto.
Qed.

Ltac run_world Hrm Hlog :=
  repeat
    (cbn beta iota delta [fst snd world trace negb];
     match goal with
     | |- context [isdir E ?w ?p] => destruct (isdir E w p) eqn:?
     | |- context [makedirs E ?w ?p] => destruct (makedirs E w p) eqn:?
     | |- context [rmdir E ?w ?p] =>
         let H := fresh "Hr" in destruct (rmdir E w p) eqn:H; [|now apply Hrm in H]
     | |- context [logging_exception E ?w ?p] =>
         let H := fresh "Hl" in
         destruct (logging_exception E w p) eqn:H; [|now apply Hlog in H]
     | |- context [replicas_create E ?w ?i ?n ?l ?o] =>
         destruct (replicas_create E w i n l o) as [? [|]] eqn:?
     | |- context [lyrSeq ?i] => destruct (lyrSeq i) eqn:?
     end).


End ExportLoop.



Section Run.

Variable E : Env.
Variable cfg : Config.t.







Lemma emits_create_replicas : forall full_backup stale_list item_list,
  emits E no_ledger (for_each E item_list (create_replica E cfg full_backup stale_list)).
Proof.
  intros. apply emits_for_each. intros item. apply emits_create_replica.
Qed.

Lemma snd_opened : forall ledger_file : option frame,
  snd (match ledger_file with
       | Some df => (Config.full_backup cfg, Some df)
       | None => (true, None)
       end) = ledger_file.
Proof. now intros [df|]. Qed.

Lemma fst_opened : forall ledger_file : option frame,
  fst (match ledger_file with
       | Some df => (Config.full_backup cfg, Some df)
       | None => (true, None)
       end) = full_backup_of cfg ledger_file.
Proof. now intros [df|]. Qed.


End Run.

(** ** Runs that reach their end *)








(** The cleanup of the handler is not itself guarded.  Two services share
    the title "Roads", hence the working directory; the export of the
    second fails when the archive of the first is in it, [os.rmdir] raises
    and the run stops before any archive is moved or checked. *)
Lemma unguarded_cleanup_stops_the_run :
  fst (main (Sample.env [Sample.roads; Sample.service "c" "Roads" [7]] Sample.only_roads)
            Sample.cfg ["a"; "c"] None
            (Sample.start [Sample.roads; Sample.service "c" "Roads" [7]] Sample.only_roads))
  = Raise OSError.
Proof. vm_compute. reflexivity. Qed.

(** ** What a run writes to the ledger file *)

Lemma Forall2_same : forall (A : Type) (R : A -> A -> Prop) (l : list A),
  (forall x, R x x) -> Forall2 R l l.
Proof. intros A R l H. induction l; constructor; auto. Qed.

Lemma Forall2_compose :
  forall (A : Type) (R1 R2 R : A -> A -> Prop) (l1 l2 l3 : list A),
    (forall x y z, R1 x y -> R2 y z -> R x z) ->
    Forall2 R1 l1 l2 -> Forall2 R2 l2 l3 -> Forall2 R l1 l3.
Proof.
  intros A R1 R2 R l1 l2 l3 H H1. revert l3.
  induction H1 as [|x y l1 l2 Hxy H1 IH]; intros l3 H2; inversion H2; subst.
  - constructor.
  - constructor; eauto.
Qed.

Lemma update_rows_updated_by : forall upd df other,
  Forall2 (fun r o => match o with
                      | Some u => In u upd /\ LedgerRow.item_id u = LedgerRow.item_id r
                      | None => True
                      end) df other ->
  Forall2 (updated_by upd) df (update_rows df other).
Proof.
  intros upd df other H. induction H as [|r o df other Hro H IH]; simpl.
  - constructor.
  - constructor; [|assumption].
    destruct o as [u|]; simpl; [|now left].
    right. exists u. tauto.
Qed.

Lemma positional_rows : forall full upd df,
  keys upd = keys df ->
  (forall u, In u upd -> In u full) ->
  Forall2 (fun r o => match o with
                      | Some u => In u full /\ LedgerRow.item_id u = LedgerRow.item_id r
                      | None => True
                      end) df (map Some upd).
Proof.
  intros full. induction upd as [|u upd IH]; intros [|r df] Heq Hall;
    simpl in *; try discriminate; constructor.
  - injection Heq as H1 H2. split; [apply Hall; now left | assumption].
  - injection Heq as H1 H2. apply IH; auto.
Qed.

Lemma update_updated_by : forall df upd df',
  update df upd = Ok df' -> Forall2 (updated_by upd) df df'.
Proof.
  intros df upd df'. unfold update, reindex_like.
  destruct (list_eqb (keys upd) (keys df)) eqn:Heq.
  - intros H. injection H as <-. apply update_rows_updated_by.
    apply list_eqb_eq in Heq. now apply positional_rows.
  - destruct (unique (keys upd)); [|discriminate].
    intros H. injection H as <-. apply update_rows_updated_by.
    clear. induction df as [|r df IH]; simpl; constructor; [|assumption].
    destruct (loc1 upd (LedgerRow.item_id r)) as [u|] eqn:Hu; [|exact I].
    now apply loc1_In in Hu.
Qed.

Lemma update_df_updated_by : forall df upd df' updated_df,
  update_df df upd = Ok (df', updated_df) ->
  Forall2 (updated_by upd) df df' /\
  exists extra, updated_df = (df' ++ extra)%list /\ forall r, In r extra -> In r upd.
Proof.
  intros df upd df' updated_df. unfold update_df.
  destruct (update df upd) as [d|e] eqn:Hu; [|discriminate].
  intros H. injection H as <- <-. split; [now apply update_updated_by|].
  eexists. split; [reflexivity|].
  intros r Hr. apply in_flat_map in Hr. destruct Hr as [k [_ Hr]].
  apply In_loc in Hr. tauto.
Qed.

Lemma ledger_after_app : forall path before evs tr,
  ledger_after path before (evs ++ tr) =
  ledger_after path (ledger_after path before tr) evs.
Proof.
  intros path before evs tr. induction evs as [|ev evs IH]; simpl; [reflexivity|].
  destruct ev; try assumption.
  destruct df; try assumption.
  destruct ok; try assumption.
  destruct (String.eqb path0 path); [reflexivity | assumption].
Qed.

Lemma ledger_after_no_ledger : forall path before evs,
  Forall no_ledger evs -> ledger_after path before evs = before.
Proof.
  intros path before evs H. induction H as [|ev evs Hev H IH]; simpl; [reflexivity|].
  destruct ev; try assumption.
  destruct df; try assumption.
  elim Hev. exact I.
Qed.

Lemma ledger_after_written : forall path before df path' evs,
  Forall (ledger_written df path') evs ->
  ledger_after path before evs = before \/
  (path' = path /\ ledger_after path before evs = Some df).
Proof.
  intros path before df path' evs H.
  induction H as [|ev evs Hev H IH]; simpl; [now left|].
  destruct Hev as [[Hev _]|[ok ->]].
  - destruct ev; try assumption.
    destruct df0; try assumption.
    elim Hev. exact I.
  - destruct ok; [|assumption].
    destruct (String.eqb path' path) eqn:Hp; [|assumption].
    apply String.eqb_eq in Hp. right. now split.
Qed.

Section Ledger.

Variable E : Env.
Variable cfg : Config.t.

Lemma bind_ok : forall A B (m : M E A) (k : A -> M E B) s a s1,
  m s = (Ok a, s1) -> bind E m k s = k a s1.
Proof. intros A B m k s a s1 H. unfold bind. now rewrite H. Qed.

Lemma bind_raise : forall A B (m : M E A) (k : A -> M E B) s e s1,
  m s = (Raise e, s1) -> bind E m k s = (Raise e, s1).
Proof. intros A B m k s e s1 H. unfold bind. now rewrite H. Qed.

Lemma emits_ledger_after : forall A (m : M E A) path before s,
  emits E no_ledger m ->
  ledger_after path before (trace (snd (m s))) = ledger_after path before (trace s).
Proof.
  intros A m path before s H. destruct (H s) as [evs [Htr F]].
  rewrite Htr, ledger_after_app. now apply ledger_after_no_ledger.
Qed.

Lemma routine_ledger_after : forall path before (s s1 : state E) evs,
  trace s1 = (evs ++ trace s)%list -> Forall routine evs ->
  ledger_after path before (trace s1) = ledger_after path before (trace s).
Proof.
  intros path before s s1 evs Htr F. rewrite Htr, ledger_after_app.
  apply ledger_after_no_ledger. eapply Forall_impl; [|exact F]. apply routine_no_ledger.
Qed.

Lemma export_ledger_after : forall df path before (s : state E),
  exists ok s1,
    export_df E (LedgerCsv df) (success_log_csv_path cfg) s = (Ok ok, s1) /\
    (ledger_after path before (trace s1) = ledger_after path before (trace s) \/
     (path = success_log_csv_path cfg /\ ledger_after path before (trace s1) = Some df)).
Proof.
  intros df path before s.
  destruct (total_emits_completes E _ (export_df E (LedgerCsv df) (success_log_csv_path cfg))
              _ s (total_export_df E _ _) (emits_export_ledger E df _))
    as (ok & s1 & evs & Hrun & Htr & F).
  exists ok, s1. split; [assumption|].
  rewrite Htr, ledger_after_app.
  destruct (ledger_after_written path (ledger_after path before (trace s)) _ _ _ F)
    as [H|[H1 H2]]; [now left | right; now split].
Qed.

Lemma update_logs_ledger_cases :
  forall full_backup stale_list item_list success_log_df (s : state E) path before,
    ledger_after path before
      (trace (snd (update_logs E cfg full_backup stale_list item_list success_log_df s)))
      = ledger_after path before (trace s) \/
    exists run_df final updated_df,
      fst (update_logs E cfg full_backup stale_list item_list success_log_df s)
        = Ok (run_df, final) /\
      update_df success_log_df (successes cfg run_df) = Ok (final, updated_df) /\
      path = success_log_csv_path cfg /\
      ledger_after path before
        (trace (snd (update_logs E cfg full_backup stale_list item_list success_log_df s)))
        = Some final.
Proof.
  intros full stale item_list L s path before. unfold update_logs.
  destruct (export_run_log_spec E cfg full stale item_list s)
    as (run_df & s1 & evs1 & Hrun & Htr1 & _ & F1).
  rewrite (bind_ok _ _ _ _ _ _ _ Hrun).
  assert (L1 : ledger_after path before (trace s1) = ledger_after path before (trace s))
    by (eapply routine_ledger_after; eauto).
  destruct (update_df L (successes cfg run_df)) as [[final updated_df]|e] eqn:Hup.
  - rewrite (bind_ok _ _ _ _ s1 (final, updated_df) s1) by reflexivity.
    destruct (export_ledger_after final path before s1) as (ok & s2 & Hexp & Hcase).
    simpl fst. rewrite (bind_ok _ _ _ _ _ _ _ Hexp). simpl.
    destruct Hcase as [H|[H1 H2]].
    + left. congruence.
    + right. exists run_df, final, updated_df. auto.
  - rewrite (bind_raise _ _ _ _ s1 e s1) by reflexivity. simpl. now left.
Qed.

(** What the ledger file holds after a run, however the run ends: what it
    held before, or the classified ledger, or the committed one; the last
    only when the run reaches its end. *)
Lemma main_ledger_cases : forall item_csv ledger_file (s : state E) path before,
  ledger_after path before (trace (snd (main E cfg item_csv ledger_file s)))
    = ledger_after path before (trace s) \/
  exists item_list merged s2,
    merge_items E ledger_file item_list s2 = (Ok merged, s2) /\
    path = success_log_csv_path cfg /\
    (ledger_after path before (trace (snd (main E cfg item_csv ledger_file s)))
       = Some merged \/
     exists run_df final updated_df,
       fst (main E cfg item_csv ledger_file s) = Ok (run_df, final) /\
       update_df merged (successes cfg run_df) = Ok (final, updated_df) /\
       ledger_after path before (trace (snd (main E cfg item_csv ledger_file s)))
         = Some final).
Proof.
  intros item_csv ledger_file s path before. unfold main.
  (* search *)
  pose proof (emits_ledger_after _ (search_items E item_csv) path before s
                (emits_weaken E _ _ _ _ routine_no_ledger (emits_search_items E item_csv)))
    as L1.
  destruct (search_items E item_csv s) as [[item_list|e] s1] eqn:H1; simpl in L1;
    [rewrite (bind_ok _ _ _ _ _ _ _ H1) | rewrite (bind_raise _ _ _ _ _ _ _ H1); now left].
  (* load *)
  destruct (open_success_log_spec E cfg ledger_file s1)
    as (opened & s2 & evs2 & H2 & Htr2 & Hopened & _ & F2 & _).
  rewrite (bind_ok _ _ _ _ _ _ _ H2).
  assert (L2 : ledger_after path before (trace s2) = ledger_after path before (trace s))
    by (rewrite <- L1; eapply routine_ledger_after; eauto).
  rewrite Hopened, snd_opened, fst_opened.
  (* classify *)
  pose proof (merge_items_state E ledger_file item_list s2) as Hst.
  destruct (merge_items E ledger_file item_list s2) as [[merged|e] s3] eqn:H3;
    simpl in Hst; subst s3;
    [rewrite (bind_ok _ _ _ _ _ _ _ H3) | rewrite (bind_raise _ _ _ _ _ _ _ H3); now left].
  (* first write *)
  destruct (export_ledger_after merged path before s2) as (ok & s4 & H4 & Hcase4).
  rewrite (bind_ok _ _ _ _ _ _ _ H4).
  (* stale list *)
  destruct (list_stale_spec E (full_backup_of cfg ledger_file) merged s4)
    as (stale & s5 & evs5 & H5 & Htr5 & _ & _ & F5).
  rewrite (bind_ok _ _ _ _ _ _ _ H5).
  assert (L5 : ledger_after path before (trace s5) = ledger_after path before (trace s4))
    by (eapply routine_ledger_after; eauto).
  (* export *)
  pose proof (emits_ledger_after _
                (for_each E item_list
                   (create_replica E cfg (full_backup_of cfg ledger_file) stale))
                path before s5 (emits_create_replicas E cfg _ _ _)) as L6.
  assert (Hwritten : forall s' : state E,
             ledger_after path before (trace s') = ledger_after path before (trace s4) ->
             ledger_after path before (trace s') = ledger_after path before (trace s) \/
             (path = success_log_csv_path cfg /\
              ledger_after path before (trace s') = Some merged)).
  { intros s' Hs'. destruct Hcase4 as [Hc|[Hp Hc]].
    - left. congruence.
    - right. split; [assumption | congruence]. }
  assert (Hstop : forall s' : state E,
             ledger_after path before (trace s') = ledger_after path before (trace s4) ->
             forall r : result (list LogRow.t * frame),
             ledger_after path before (trace s') = ledger_after path before (trace s) \/
             exists item_list merged s2,
               merge_items E ledger_file item_list s2 = (Ok merged, s2) /\
               path = success_log_csv_path cfg /\
               (ledger_after path before (trace s') = Some merged \/
                exists run_df final updated_df,
                  r = Ok (run_df, final) /\
                  update_df merged (successes cfg run_df) = Ok (final, updated_df) /\
                  ledger_after path before (trace s') = Some final)).
  { intros s' Hs' r. destruct (Hwritten s' Hs') as [Hl|[Hp Hc]]; [now left|].
    right. exists item_list, merged, s2. auto. }
  destruct (for_each E item_list
              (create_replica E cfg (full_backup_of cfg ledger_file) stale) s5)
    as [[u6|e] s6] eqn:H6; simpl in L6.
  2: { rewrite (bind_raise _ _ _ _ _ _ _ H6). simpl. apply Hstop. congruence. }
  rewrite (bind_ok _ _ _ _ _ _ _ H6).
  (* move *)
  destruct (total_emits_completes E _
              (move_items E cfg (full_backup_of cfg ledger_file) stale item_list) _ s6
              (total_move_items E cfg _ _ _) (emits_move_items E cfg _ _ _))
    as (u7 & s7 & evs7 & H7 & Htr7 & F7).
  rewrite (bind_ok _ _ _ _ _ _ _ H7).
  assert (L7 : ledger_after path before (trace s7) = ledger_after path before (trace s4))
    by (rewrite <- L5, <- L6; eapply routine_ledger_after; eauto).
  (* logs *)
  pose proof (update_logs_ledger_cases (full_backup_of cfg ledger_file) stale item_list
                merged s7 path before) as Hlogs.
  destruct (update_logs E cfg (full_backup_of cfg ledger_file) stale item_list merged s7)
    as [[logs|e] s8] eqn:H8; simpl in Hlogs.
  2: { rewrite (bind_raise _ _ _ _ _ _ _ H8). simpl.
       destruct Hlogs as [Hl|(rd & fn & ud & Hr & _)]; [|discriminate].
       apply Hstop. congruence. }
  rewrite (bind_ok _ _ _ _ _ _ _ H8).
  unfold bind, print, emit, ret. simpl.
  destruct Hlogs as [Hl|(rd & fn & ud & Hr & Hup & Hp & Hfinal)].
  - apply (Hstop s8). congruence.
  - right. exists item_list, merged, s2. split; [assumption|]. split; [assumption|].
    right. exists rd, fn, ud. injection Hr as ->. auto.
Qed.

End Ledger.

(** ** Successive runs *)

Lemma merge_items_rows : forall E ledger_file item_list (s2 : state E) merged,
  merge_items E ledger_file item_list s2 = (Ok merged, s2) ->
  match ledger_file with
  | Some base =>
      exists kept extra,
        merged = (kept ++ extra)%list /\
        Forall2 (fun r r' => LedgerRow.item_id r' = LedgerRow.item_id r /\
                             LedgerRow.backup_ts r' = LedgerRow.backup_ts r) base kept /\
        Forall (fun r => LedgerRow.backup_ts r = None) extra
  | None => Forall (fun r => LedgerRow.backup_ts r = Some 0) merged
  end.
Proof.
  intros E [base|] [|it rest] s2 merged H; try discriminate.
  - unfold merge_items, bind, lift, ret in H.
    destruct (update_df base (items_df (it :: rest))) as [[kept updated]|e] eqn:Hup;
      [|discriminate].
    injection H as <-. simpl.
    apply update_df_updated_by in Hup. destruct Hup as [Hrows [extra [-> Hextra]]].
    exists kept, extra. split; [reflexivity|]. split.
    + eapply Forall2_impl; [|exact Hrows].
      intros r r' [->|[u [Hu [_ ->]]]]; [now split|].
      unfold items_df in Hu. apply in_map_iff in Hu. destruct Hu as [item [<- _]].
      now split.
    + apply Forall_forall. intros r Hr. apply Hextra in Hr.
      unfold items_df in Hr. apply in_map_iff in Hr. now destruct Hr as [item [<- _]].
  - injection H as <-. apply Forall_forall. intros r [<-|Hr]; [reflexivity|].
    apply in_map_iff in Hr. now destruct Hr as [r0 [<- _]].
Qed.

Lemma commit_rows : forall cfg merged run_df final updated_df,
  update_df merged (successes cfg run_df) = Ok (final, updated_df) ->
  Forall2 (row_advances (Config.ts_today cfg) (verified_in run_df)) merged final.
Proof.
  intros cfg merged run_df final updated_df H.
  apply update_df_updated_by in H. destruct H as [H _].
  eapply Forall2_impl; [|exact H].
  intros r r' [->|[u [Hu [Hid ->]]]].
  - split; [reflexivity | now left].
  - split; [reflexivity|]. right. split.
    + unfold successes in Hu. apply in_map_iff in Hu. now destruct Hu as [lr [<- _]].
    + unfold successes in Hu. apply in_map_iff in Hu. destruct Hu as [lr [<- Hlr]].
      apply filter_In in Hlr. destruct Hlr as [Hlr Hst]. apply String.eqb_eq in Hst.
      exists lr. auto.
Qed.

Lemma row_advances_same : forall ts V r, row_advances ts V r r.
Proof. intros. split; [reflexivity | now left]. Qed.

Lemma row_new_advances : forall ts V r r',
  row_new ts V r -> row_advances ts V r r' -> row_new ts V r'.
Proof.
  intros ts V r r' Hn [Hid [Hb|[Hb Hv]]].
  - unfold row_new in *. now rewrite Hb, Hid.
  - right. right. rewrite Hid. now split.
Qed.

Lemma Forall_Forall2_transport : forall (A : Type) (P Q : A -> Prop) (R : A -> A -> Prop) l l',
  (forall x y, P x -> R x y -> Q y) -> Forall P l -> Forall2 R l l' -> Forall Q l'.
Proof.
  intros A P Q R l l' H HP HR. induction HR as [|x y l l' Hxy HR IH]; constructor.
  - inversion HP; subst. eauto.
  - inversion HP; subst. auto.
Qed.

Lemma not_after_Some : forall t L,
  not_after t (Some L) <-> forall r b, In r L -> LedgerRow.backup_ts r = Some b -> b <= t.
Proof.
  intros t L. unfold not_after. split.
  - intros H r b. apply H. reflexivity.
  - intros H L0 r b HL. injection HL as <-. apply H.
Qed.

Lemma not_after_None : forall t, not_after t None.
Proof. intros t L r b H. discriminate. Qed.

Lemma row_new_bound : forall ts V r b,
  0 <= ts -> row_new ts V r -> LedgerRow.backup_ts r = Some b -> b <= ts.
Proof.
  intros ts V r b Hpos [H|[H|[H _]]] Hb; rewrite H in Hb; [discriminate | |];
    injection Hb as <-; lia.
Qed.

Lemma kept_rows_grow : forall ts V L kept,
  Forall2 (row_advances ts V) L kept ->
  (forall r b, In r L -> LedgerRow.backup_ts r = Some b -> b <= ts) ->
  Forall2 (fun r r' => LedgerRow.item_id r' = LedgerRow.item_id r /\
                       cell_le (LedgerRow.backup_ts r) (LedgerRow.backup_ts r')) L kept /\
  (forall r' b', In r' kept -> LedgerRow.backup_ts r' = Some b' -> b' <= ts).
Proof.
  intros ts V L kept H. induction H as [|r r' L kept Hrr H IH]; intros Hb.
  - split; [constructor | intros r' b' []].
  - destruct IH as [IH1 IH2]; [intros x b Hx; apply Hb; now right|].
    destruct Hrr as [Hid Hts]. split.
    + constructor; [|assumption]. split; [assumption|].
      destruct (LedgerRow.backup_ts r) as [b|] eqn:Hr; simpl; [|exact I].
      destruct Hts as [Hts|[Hts _]]; rewrite Hts.
      * exists b. split; [reflexivity | lia].
      * exists ts. split; [reflexivity|]. apply (Hb r b); [now left | assumption].
    + intros x b' [<-|Hx] Hx'; [|now apply (IH2 x)].
      destruct Hts as [Hts|[Hts _]]; rewrite Hts in Hx'.
      * apply (Hb r b'); [now left | assumption].
      * injection Hx' as <-. lia.
Qed.

Lemma step_grows : forall ts V t L L',
  ledger_step ts V L L' -> not_after t L -> t <= ts -> 0 <= ts ->
  ledger_grows L L' /\ not_after ts L'.
Proof.
  intros ts V t [L|] [L'|] Hstep Hbound Hle Hpos; simpl in *; try contradiction.
  - destruct Hstep as (kept & extra & -> & Hkept & Hextra).
    rewrite not_after_Some in Hbound.
    destruct (kept_rows_grow ts V L kept Hkept) as [G1 G2].
    { intros r b Hr Hb. specialize (Hbound r b Hr Hb). lia. }
    split.
    + exists kept, extra. split; [reflexivity | assumption].
    + apply not_after_Some. intros r b Hr Hb.
      apply in_app_or in Hr. destruct Hr as [Hr|Hr]; [now apply (G2 r)|].
      rewrite Forall_forall in Hextra. now apply (row_new_bound ts V r b Hpos (Hextra r Hr)).
  - split; [exact I|]. apply not_after_Some. intros r b Hr Hb.
    rewrite Forall_forall in Hstep. now apply (row_new_bound ts V r b Hpos (Hstep r Hr)).
  - split; [exact I | apply not_after_None].
Qed.

Lemma ledger_grows_refl : forall L, ledger_grows L L.
Proof.
  intros [L|]; simpl; [|exact I].
  exists L, []. rewrite app_nil_r. split; [reflexivity|].
  apply Forall2_same. intros r. split; [reflexivity|].
  destruct (LedgerRow.backup_ts r) as [b|]; simpl; [|exact I]. exists b. split; [reflexivity | lia].
Qed.

Lemma cell_le_trans : forall a b c, cell_le a b -> cell_le b c -> cell_le a c.
Proof.
  intros [x|] b c; simpl; [|auto].
  intros [y [-> Hxy]] [z [-> Hyz]]. exists z. split; [reflexivity | lia].
Qed.

Lemma ledger_grows_trans : forall L1 L2 L3,
  ledger_grows L1 L2 -> ledger_grows L2 L3 -> ledger_grows L1 L3.
Proof.
  intros [L1|] L2 L3; simpl; [|auto].
  intros (kept & extra & -> & H12) H23. simpl in H23.
  destruct H23 as (kept' & extra' & -> & H23).
  apply Forall2_app_inv_l in H23. destruct H23 as (k1 & k2 & Hk1 & _ & ->).
  exists k1, (k2 ++ extra')%list. split; [now rewrite app_assoc|].
  eapply Forall2_compose; [|exact H12|exact Hk1].
  intros x y z [H1 H2] [H3 H4]. split; [congruence|].
  eapply cell_le_trans; eauto.
Qed.

Section History.

Variable E : Env.
Variable download_location : string.
Variable successful_backups : string.

Lemma run_once_step : forall (ledger_file : option frame) (i : run_input E),
  ledger_step (run_ts_today E i)
              (verified_by E download_location successful_backups ledger_file i)
              ledger_file
              (run_once E download_location successful_backups ledger_file i).
Proof.
  intros ledger_file i. unfold run_once, run_script.
  set (ts := run_ts_today E i).
  set (V := verified_by E download_location successful_backups ledger_file i).
  set (cfg := run_cfg E download_location successful_backups i).
  destruct (main_ledger_cases E cfg (run_item_csv E i) ledger_file
              (Build_state E (run_world E i) [])
              (success_log_csv_path cfg) ledger_file)
    as [Hsame|(item_list & merged & s2 & Hmerge & _ & Hcase)].
  - rewrite Hsame. simpl. destruct ledger_file as [L|]; simpl; [|exact I].
    exists L, []. rewrite app_nil_r. split; [reflexivity|].
    split; [|constructor]. apply Forall2_same. apply row_advances_same.
  - apply merge_items_rows in Hmerge.
    destruct Hcase as [Hafter|(run_df & final & updated_df & Hres & Hup & Hafter)];
      rewrite Hafter.
    + destruct ledger_file as [base|]; simpl.
      * destruct Hmerge as (kept & extra & -> & Hkept & Hextra).
        exists kept, extra. split; [reflexivity|]. split.
        -- eapply Forall2_impl; [|exact Hkept]. intros r r' [H1 H2].
           split; [assumption | now left].
        -- eapply Forall_impl; [|exact Hextra]. intros r Hr. now left.
      * eapply Forall_impl; [|exact Hmerge]. intros r Hr. right. now left.
    + apply commit_rows in Hup.
      assert (HV : forall id, verified_in run_df id -> V id).
      { intros id Hid. exists run_df, final. split; assumption. }
      assert (Hup' : Forall2 (row_advances ts V) merged final).
      { eapply Forall2_impl; [|exact Hup]. intros r r' [H1 [H2|[H2 H3]]].
        - split; [assumption | now left].
        - split; [assumption | right; split; auto]. }
      destruct ledger_file as [base|]; simpl.
      * destruct Hmerge as (kept & extra & -> & Hkept & Hextra).
        apply Forall2_app_inv_l in Hup'.
        destruct Hup' as (kept' & extra' & Hk' & He' & ->).
        exists kept', extra'. split; [reflexivity|]. split.
        -- eapply Forall2_compose; [|exact Hkept|exact Hk'].
           intros x y z [H1 H2] [H3 H4]. split; [congruence|].
           rewrite <- H2, <- H1. exact H4.
        -- eapply Forall_Forall2_transport; [|exact Hextra|exact He'].
           intros x y Hx Hxy. apply (row_new_advances ts V x); [now left | assumption].
      * eapply Forall_Forall2_transport; [|exact Hmerge|exact Hup'].
        intros x y Hx Hxy. apply (row_new_advances ts V x); [right; now left | assumption].
Qed.

Lemma run_all_grows : forall runs ledger_file t,
  0 <= t -> not_after t ledger_file -> increasing_from E t runs ->
  ledger_grows ledger_file (run_all E download_location successful_backups ledger_file runs).
Proof.
  induction runs as [|i rest IH]; intros ledger_file t Hpos Hbound Hinc; simpl.
  - apply ledger_grows_refl.
  - destruct Hinc as [Hle Hinc].
    destruct (step_grows _ _ t _ _ (run_once_step ledger_file i) Hbound Hle) as [G B];
      [lia|].
    eapply ledger_grows_trans; [exact G|].
    apply (IH _ (run_ts_today E i)); [lia | assumption | assumption].
Qed.

Lemma run_all_bound : forall earlier later ledger_file t,
  0 <= t -> not_after t ledger_file -> increasing_from E t (earlier ++ later) ->
  exists t',
    0 <= t' /\
    not_after t' (run_all E download_location successful_backups ledger_file earlier) /\
    increasing_from E t' later.
Proof.
  induction earlier as [|i rest IH]; intros later ledger_file t Hpos Hbound Hinc; simpl in *.
  - exists t. auto.
  - destruct Hinc as [Hle Hinc].
    destruct (step_grows _ _ t _ _ (run_once_step ledger_file i) Hbound Hle) as [G B];
      [lia|].
    apply (IH later _ (run_ts_today E i)); [lia | assumption | assumption].
Qed.

End History.

(** C8.  Over runs whose clocks do not go back, the ledger file loses no
    record and no [backup_ts] in it decreases, however the runs end.  In
    one run a [backup_ts] is either left as it is or set to the
    [ts_today] of the run, the latter only for an identifier the run log
    marks "success"; a record the run creates starts unset or at 0. *)
Theorem backup_ts_never_decreases :
  forall (E : Env) (download_location successful_backups : string)
         (ledger_file : option frame) (t : Z) (earlier later : list (run_input E)),
    0 <= t ->
    not_after t ledger_file ->
    increasing_from E t (earlier ++ later) ->
    ledger_grows (run_all E download_location successful_backups ledger_file earlier)
                 (run_all E download_location successful_backups ledger_file
                          (earlier ++ later)) /\
    forall (before : option frame) (i : run_input E),
      ledger_step (run_ts_today E i)
                  (verified_by E download_location successful_backups before i)
                  before
                  (run_once E download_location successful_backups before i).
Proof.
  intros E dl sb ledger_file t earlier later Hpos Hbound Hinc. split.
  - destruct (run_all_bound E dl sb earlier later ledger_file t Hpos Hbound Hinc)
      as (t' & Hpos' & Hbound' & Hinc').
    unfold run_all at 2. rewrite fold_left_app.
    now apply (run_all_grows E dl sb later _ t').
  - intros before i. apply run_once_step.
Qed.

(** C8 on two runs a day apart from no ledger: the export of "a" succeeds
    in both, that of "b" fails in both. *)
Lemma backup_ts_never_decreases_witness :
  ledger_grows
    (run_all _ "C:" "ledger.csv" None [Sample.first_run])
    (run_all _ "C:" "ledger.csv" None [Sample.first_run; Sample.second_run]) /\
  option_map (map LedgerRow.backup_ts)
    (run_all _ "C:" "ledger.csv" None [Sample.first_run])
    = Some [Some 1709251200000; Some 0] /\
  option_map (map LedgerRow.backup_ts)
    (run_all _ "C:" "ledger.csv" None [Sample.first_run; Sample.second_run])
    = Some [Some 1709337600000; Some 0].
Proof.
  split.
  - apply (backup_ts_never_decreases
             (Sample.env [Sample.roads; Sample.wells] Sample.only_roads) "C:" "ledger.csv"
             None 0 [Sample.first_run] [Sample.second_run]).
    + lia.
    + intros L r b H. discriminate.
    + simpl. lia.
  - split; vm_compute; reflexivity.
Defined.

(** ** Identifiers the portal does not match *)

(** An identifier that matches nothing leaves the list of items as it is:
    with another identifier in the file, the run is the one the file
    without it gives. *)
Lemma unmatched_identifier_is_skipped :
  forall (E : Env) (cfg : Config.t) (before after : list string) (item_id : string)
         (ledger_file : option frame) (s : state E),
    search E (world s) item_id = [] ->
    (before ++ after)%list <> [] ->
    main E cfg (before ++ item_id :: after) ledger_file s =
    main E cfg (before ++ after) ledger_file s.
Proof.
  intros E cfg l1 l2 x ledger_file s Hx Hne.
  assert (Hs : search_items E (l1 ++ x :: l2) s = search_items E (l1 ++ l2) s).
  { unfold search_items.
    destruct (l1 ++ l2)%list as [|y l] eqn:H12; [now elim Hne|].
    destruct (l1 ++ x :: l2)%list as [|z l'] eqn:H1x2; [now destruct l1|].
    rewrite <- H12, <- H1x2.
    unfold bind, read. simpl.
    rewrite !flat_map_app. simpl. now rewrite Hx. }
  unfold main, bind. now rewrite Hs.
Qed.

(** When no identifier of the file matches, [items_df] has no column and
    the classification raises. *)
Lemma no_match_raises :
  forall (E : Env) (cfg : Config.t) (item_csv : list string)
         (ledger_file : option frame) (s : state E),
    item_csv <> [] ->
    flat_map (search E (world s)) item_csv = [] ->
    fst (main E cfg item_csv ledger_file s) =
    Raise (match ledger_file with Some _ => KeyError | None => IndexError end).
Proof.
  intros E cfg item_csv ledger_file s Hne Hnone.
  destruct item_csv as [|x l]; [now elim Hne|].
  unfold main, search_items, bind, read, print, emit, ret. simpl.
  simpl in Hnone. rewrite Hnone.
  destruct ledger_file; reflexivity.
Qed.

(** C10.  The file lists one identifier and the portal matches none: the
    identifier is not skipped in silence, the run stops on an exception
    (IndexError with no ledger, KeyError with one) before anything is
    exported or written. *)
Theorem unmatched_identifier_alone_stops_the_run :
  main (Sample.env [Sample.roads] (fun _ => true)) Sample.cfg ["zz"] None
       (Sample.start [Sample.roads] (fun _ => true))
    = (Raise IndexError,
       Build_state (Sample.env [Sample.roads] (fun _ => true)) Sample.fresh_disk
         [Print "------------------";
          Print (success_log_csv_path Sample.cfg);
          Print "Couldn't open log of successful backups, backing up all services";
          PrintItems [];
          Print (nl ++ "List of ArcGIS Online items to backup:")]) /\
  fst (main (Sample.env [Sample.roads] (fun _ => true)) Sample.cfg ["zz"]
            (Some [Sample.backed_up "a" "Roads" 5 9])
            (Sample.start [Sample.roads] (fun _ => true)))
    = Raise KeyError.
Proof. split; vm_compute; reflexivity. Qed.

(** ** Scenarios *)

(** A ledger with no record yet and two services: both are stale, both
    exports succeed and both records get the [ts_today] of the run. *)
Example never_backed_up_services_are_exported :
  let E := Sample.env [Sample.roads; Sample.wells] (fun _ => true) in
  exists run_df success_log_df s',
    main E Sample.cfg ["a"; "b"] (Some []) (Sample.start _ _)
      = (Ok (run_df, success_log_df), s') /\
    map LogRow.status run_df = ["success"; "success"] /\
    map LedgerRow.backup_ts success_log_df
      = [Some (Config.ts_today Sample.cfg); Some (Config.ts_today Sample.cfg)].
Proof.
  do 3 eexists. split; [vm_compute; reflexivity|]. split; reflexivity.
Qed.

(** "a" was backed up after its last edit and "b" before: only "b" is
    exported, "a" is logged as still fresh and its record is left alone. *)
Example fresh_backup_is_skipped :
  let E := Sample.env [Sample.roads; Sample.wells] (fun _ => true) in
  exists run_df success_log_df s',
    main E Sample.cfg ["a"; "b"]
         (Some [Sample.backed_up "a" "Roads" 1709000000000 1709100000000;
                Sample.backed_up "b" "Wells" 1709100000000 1709000000000])
         (Sample.start _ _)
      = (Ok (run_df, success_log_df), s') /\
    map LogRow.status run_df = ["Backup still fresh"; "success"] /\
    map LedgerRow.backup_ts success_log_df
      = [Some 1709100000000; Some (Config.ts_today Sample.cfg)] /\
    forall replica_name layers out_path ok,
      ~ In (CreateReplica Sample.roads replica_name layers out_path ok) (trace s').
Proof.
  do 3 eexists. split; [vm_compute; reflexivity|].
  split; [reflexivity|]. split; [reflexivity|].
  intros n l o ok H. simpl in H.
  repeat (destruct H as [H|H]; [discriminate|]). exact H.
Qed.

(** * Further properties of the code *)

(** ** [item_info] *)

(** X1.  [last_edit_date_ts] is never negative: the loops of [item_info]
    start from 0, so an edit date before the epoch is ignored.  For an item
    type with layers the value bounds every edit date of the layers and
    tables and is 0 or one of them; for another item type it is 0 whatever
    the item holds. *)
Theorem last_edit_date_ts_floor :
  forall (item : Item.t),
    0 <= item_last_edit_date_ts item /\
    LedgerRow.last_edit_date_ts (item_info item) = Some (item_last_edit_date_ts item) /\
    if Item._has_layers item
    then Forall (fun x => lastEditDate x <= item_last_edit_date_ts item)
                (Item.layers item ++ Item.tables item) /\
         (item_last_edit_date_ts item = 0 \/
          In (item_last_edit_date_ts item)
             (map lastEditDate (Item.layers item ++ Item.tables item)))
    else item_last_edit_date_ts item = 0.
Proof.
  intros item.
  assert (H : 0 <= item_last_edit_date_ts item /\
              if Item._has_layers item
              then Forall (fun x => lastEditDate x <= item_last_edit_date_ts item)
                          (Item.layers item ++ Item.tables item) /\
                   (item_last_edit_date_ts item = 0 \/
                    In (item_last_edit_date_ts item)
                       (map lastEditDate (Item.layers item ++ Item.tables item)))
              else item_last_edit_date_ts item = 0).
  { unfold item_last_edit_date_ts.
    destruct (Item._has_layers item); [|split; [lia | reflexivity]].
    set (a := fold_left newer_edit (Item.layers item) 0).
    destruct (newer_edit_fold_bounds (Item.layers item) 0) as [L1 [L2 L3]].
    destruct (newer_edit_fold_bounds (Item.tables item) a) as [T1 [T2 T3]].
    fold a in L1, L2, L3.
    split; [lia|]. split.
    - apply Forall_app. split; [|assumption].
      eapply Forall_impl; [|exact L2]. simpl. intros x Hx. lia.
    - rewrite map_app. destruct T3 as [T3|T3].
      + rewrite T3. destruct L3 as [L3|L3]; [now left|].
        right. apply in_or_app. now left.
      + right. apply in_or_app. now right. }
  destruct H as [H1 H2]. split; [assumption|]. split; [reflexivity | assumption].
Qed.

(** ** [split_string] *)

Lemma string_app_assoc : forall a b c : string, (a ++ b) ++ c = a ++ (b ++ c).
Proof. induction a as [|x a IH]; intros b c; simpl; [reflexivity | now rewrite IH]. Qed.

Lemma prefix_app : forall d q : string, prefix d (d ++ q) = true.
Proof.
  induction d as [|a d IH]; intros q; simpl.
  - now destruct q.
  - destruct (ascii_dec a a) as [_|H]; [apply IH | now elim H].
Qed.





Lemma rev_string_aux_step : forall cur c s,
  rev_string_aux (String c cur) s = rev_string_aux cur (String c s).
Proof. reflexivity. Qed.




Lemma split_scan_skip : forall delimiters d q cur,
  split_scan delimiters (d ++ q) (String.length d) cur = split_scan delimiters q O cur.
Proof.
  intros delimiters. induction d as [|a d IH]; intros q cur; simpl.
  - now destruct q.
  - apply IH.
Qed.

Lemma split_scan_clean : forall delimiters d q p cur,
  clean delimiters p (d ++ q) = true ->
  match_delimiter delimiters (d ++ q) = Some d ->
  d <> "" ->
  split_scan delimiters (p ++ d ++ q) O cur =
  rev_string_aux cur p :: split_scan delimiters q O "".
Proof.
  intros delimiters d q p cur Hclean Hm Hne. revert cur Hclean.
  induction p as [|c p IH]; intros cur Hclean.
  - destruct d as [|a d]; [now elim Hne|].
    change ("" ++ String a d ++ q) with (String a (d ++ q)).
    change (String a d ++ q) with (String a (d ++ q)) in Hm.
    simpl. rewrite Hm. simpl. now rewrite split_scan_skip.
  - change (String c p ++ d ++ q) with (String c (p ++ d ++ q)).
    simpl in Hclean. simpl.
    destruct (match_delimiter delimiters (String c (p ++ d ++ q))); [discriminate|].
    now rewrite IH.
Qed.

Lemma layer_pieces : forall x n,
  served_as x n ->
  nth 1 (split_string (layer_str x) layer_delimiters) "" = n /\
  List.length (split_string (layer_str x) layer_delimiters) = 3%nat.
Proof.
  intros x n (base & Hurl & Hpre & Hn).
  unfold split_string, layer_str. rewrite Hurl.
  replace ("<" ++ layer_class x ++ " url:" ++ dq ++ (base ++ "FeatureServer/" ++ n) ++ dq ++ ">")
    with (("<" ++ layer_class x ++ " url:" ++ dq ++ base) ++
          "FeatureServer/" ++ (n ++ dq ++ ">")).
  2: { simpl. f_equal. rewrite !string_app_assoc. reflexivity. }
  rewrite split_scan_clean; [|assumption| |discriminate].
  2: { unfold layer_delimiters, match_delimiter. now rewrite prefix_app. }
  replace (n ++ dq ++ ">") with (n ++ (dq ++ ">") ++ "") by reflexivity.
  rewrite split_scan_clean; [|assumption|reflexivity|discriminate].
  split; reflexivity.
Qed.

Lemma layer_indexes : forall l ns,
  Forall2 served_as l ns ->
  map (fun x => nth 1 (split_string (layer_str x) layer_delimiters) "") l = ns.
Proof.
  intros l ns H. induction H as [|x n l ns Hx H IH]; simpl; [reflexivity|].
  f_equal; [now apply layer_pieces | assumption].
Qed.

(** X4.  For a service whose layers and tables are served at
    [<base>FeatureServer/<n>], [lyrSeq] is the list of the [n], layers
    first, joined with ", "; the textual form of each is cut in exactly
    three pieces. *)
Theorem lyrSeq_lists_layer_numbers :
  forall (item : Item.t) (ns : list string),
    Forall2 served_as (Item.layers item ++ Item.tables item) ns ->
    (Item.layers item ++ Item.tables item)%list <> [] ->
    lyrSeq item = Some (join ", " ns) /\
    Forall (fun x => List.length (split_string (layer_str x) layer_delimiters) = 3%nat)
           (Item.layers item ++ Item.tables item).
Proof.
  intros item ns H Hne. split.
  - unfold lyrSeq.
    destruct (Item.layers item ++ Item.tables item)%list as [|x l] eqn:Hl;
      [now elim Hne|].
    f_equal. f_equal. now apply layer_indexes.
  - apply Forall_forall. intros x Hx.
    assert (Hn : exists n, served_as x n).
    { clear Hne. induction H as [|y n l ns' Hy H IH]; [contradiction|].
      destruct Hx as [<-|Hx]; [now exists n | auto]. }
    destruct Hn as [n Hn]. now apply (layer_pieces x n).
Qed.

(** X4 on a service with two layers and a table. *)
Lemma lyrSeq_lists_layer_numbers_witness :
  lyrSeq (Item.mk "a" (Some "roads") "Roads" "https://host/rest/services/roads/FeatureServer"
            9 true
            [Build_layer "FeatureLayer" "https://host/rest/services/roads/FeatureServer/0" 5;
             Build_layer "FeatureLayer" "https://host/rest/services/roads/FeatureServer/1" 12]
            [Build_layer "Table" "https://host/rest/services/roads/FeatureServer/2" 7])
  = Some "0, 1, 2".
Proof.
  apply (lyrSeq_lists_layer_numbers
           (Item.mk "a" (Some "roads") "Roads" "https://host/rest/services/roads/FeatureServer"
              9 true
              [Build_layer "FeatureLayer" "https://host/rest/services/roads/FeatureServer/0" 5;
               Build_layer "FeatureLayer" "https://host/rest/services/roads/FeatureServer/1" 12]
              [Build_layer "Table" "https://host/rest/services/roads/FeatureServer/2" 7])
           ["0"; "1"; "2"]).
  - simpl. repeat constructor;
      (exists "https://host/rest/services/roads/"; split; [reflexivity|];
       split; vm_compute; reflexivity).
  - discriminate.
Defined.

(** ** [update_df] once more *)


Lemma update_raises_ValueError : forall df upd e,
  update df upd = Raise e -> e = ValueError.
Proof.
  intros df upd e. unfold update, reindex_like.
  destruct (list_eqb (keys upd) (keys df)); [discriminate|].
  destruct (unique (keys upd)); [discriminate|]. congruence.
Qed.




Lemma NoDup_insert_sorted : forall x l,
  ~ In x l -> NoDup l -> NoDup (insert_sorted x l).
Proof.
  intros x l. induction l as [|y l IH]; intros Hx Hl; simpl.
  - constructor; [auto | constructor].
  - destruct (String.leb x y).
    + now constructor.
    + inversion Hl as [|? ? Hy Hl']; subst. constructor.
      * rewrite In_insert_sorted. intros [->|H]; [apply Hx; now left | contradiction].
      * apply IH; [intros H; apply Hx; now right | assumption].
Qed.

Lemma NoDup_sort : forall l, NoDup l -> NoDup (sort l).
Proof.
  induction l as [|x l IH]; intros H; simpl; [constructor|].
  inversion H; subst. apply NoDup_insert_sorted; [now rewrite In_sort | auto].
Qed.

Lemma NoDup_dedup : forall l, NoDup (dedup l).
Proof.
  induction l as [|x l IH]; simpl; [constructor|].
  destruct (mem x l) eqn:Hm; [assumption|].
  constructor; [|assumption]. rewrite In_dedup. now apply mem_false.
Qed.

Lemma NoDup_difference : forall a b, NoDup (difference a b).
Proof. intros a b. unfold difference. apply NoDup_sort, NoDup_dedup. Qed.



Lemma loc_singleton : forall upd r,
  NoDup (keys upd) -> In r upd -> loc upd (LedgerRow.item_id r) = [r].
Proof.
  unfold loc, keys. induction upd as [|x upd IH]; intros r Hnd Hin; simpl in *.
  - contradiction.
  - inversion Hnd as [|? ? Hx Hnd']; subst.
    destruct Hin as [->|Hin].
    + rewrite String.eqb_refl. f_equal.
      clear IH Hnd Hnd'. induction upd as [|y upd IH]; simpl; [reflexivity|].
      destruct (String.eqb (LedgerRow.item_id y) (LedgerRow.item_id r)) eqn:He.
      * apply String.eqb_eq in He. elim Hx. rewrite <- He. now left.
      * apply IH. intros H. apply Hx. now right.
    + destruct (String.eqb (LedgerRow.item_id x) (LedgerRow.item_id r)) eqn:He.
      * apply String.eqb_eq in He. elim Hx. rewrite He. now apply in_map.
      * now apply IH.
Qed.

Lemma keys_appended : forall upd ks,
  NoDup (keys upd) ->
  (forall k, In k ks -> In k (keys upd)) ->
  keys (flat_map (loc upd) ks) = ks.
Proof.
  intros upd ks Hnd. induction ks as [|k ks IH]; intros H; simpl; [reflexivity|].
  assert (Hk : In k (keys upd)) by (apply H; now left).
  unfold keys in Hk. apply in_map_iff in Hk. destruct Hk as [r [<- Hr]].
  rewrite loc_singleton by assumption. simpl. f_equal.
  apply IH. intros k' Hk'. apply H. now right.
Qed.



Lemma keys_app : forall a b : frame, keys (a ++ b)%list = (keys a ++ keys b)%list.
Proof. intros a b. unfold keys. apply map_app. Qed.

(** X8.  [update_df] keeps the labels of the ledger distinct: from a
    ledger and an incoming frame with distinct labels each, the frame
    returned has distinct labels, and they are the labels of the one or of
    the other. *)
Theorem update_df_keeps_labels_distinct :
  forall (df updating_df : frame),
    NoDup (keys df) ->
    NoDup (keys updating_df) ->
    exists df' updated_df,
      update_df df updating_df = Ok (df', updated_df) /\
      NoDup (keys updated_df) /\
      forall k, In k (keys updated_df) <-> In k (keys df) \/ In k (keys updating_df).
Proof.
  intros df upd Hdf Hupd. rewrite update_df_NoDup by assumption.
  eexists. eexists. split; [reflexivity|].
  rewrite keys_app, keys_merge_lookup.
  rewrite keys_appended; [|assumption|intros k Hk; now apply In_difference in Hk].
  split.
  - apply NoDup_app; [assumption | apply NoDup_difference|].
    intros k Hk Hd. apply In_difference in Hd. tauto.
  - intros k. rewrite in_app_iff, In_difference.
    destruct (in_dec string_dec k (keys df)); tauto.
Qed.

(** X8 on a ledger of one record and two fetched services. *)
Lemma update_df_keeps_labels_distinct_witness :
  exists df' updated_df,
    update_df [Sample.backed_up "a" "Roads" 5 9]
              (items_df [Sample.service "a" "Roads" [12]; Sample.service "b" "Wells" [3]])
      = Ok (df', updated_df) /\
    keys updated_df = ["a"; "b"].
Proof.
  destruct (update_df_keeps_labels_distinct
              [Sample.backed_up "a" "Roads" 5 9]
              (items_df [Sample.service "a" "Roads" [12]; Sample.service "b" "Wells" [3]]))
    as (df' & updated_df & H & _).
  - apply unique_NoDup. reflexivity.
  - apply unique_NoDup. reflexivity.
  - exists df', updated_df. split; [exact H|].
    vm_compute in H. injection H as _ <-. reflexivity.
Defined.

(** ** The export loop once more *)

Lemma emits_for_each_in :
  forall (E : Env) A (C : event -> Prop) (l : list A) (body : A -> M E unit),
    (forall x, In x l -> emits E C (body x)) -> emits E C (for_each E l body).
Proof.
  intros E A C l body. induction l as [|x l IH]; intros H; simpl.
  - apply emits_ret.
  - apply emits_bind; [apply H; now left|].
    intros _. apply IH. intros y Hy. apply H. now right.
Qed.

(** X9.  Whatever the portal and the file system answer, the export loop
    calls the export service only for items of the list that need a backup,
    each time under the replica name [<title>_<date>], with the layer
    numbers of the item and its dated folder as [out_path]; it creates no
    folder but these folders and the log folder, removes nothing but these
    folders, and writes, renames and moves no file. *)
Theorem export_loop_calls :
  forall (E : Env) (cfg : Config.t) (full_backup : bool)
         (stale_list : option (list string)) (item_list : list Item.t),
    emits E (export_step cfg full_backup stale_list item_list)
          (for_each E item_list (create_replica E cfg full_backup stale_list)).
Proof.
  intros E cfg full stale item_list. apply emits_for_each_in. intros item Hin.
  unfold create_replica.
  destruct (needs_backup full stale item) eqn:Hneeds; [|apply emits_ret].
  destruct (lyrSeq item) as [layers|] eqn:Hlayers;
    unfold check_create_folder, os_path_isdir, os_makedirs, os_rmdir,
      logging_exception_to, print;
    repeat emits_step; simpl; eauto 6.
Qed.

(** Every answer of the file system to the calls of a statement. *)
Ltac world_cases E :=
  repeat
    (cbn beta iota delta [fst snd world trace negb];
     match goal with
     | |- context [isdir E ?w ?p] => destruct (isdir E w p) eqn:?
     | |- context [makedirs E ?w ?p] => destruct (makedirs E w p) eqn:?
     | |- context [rmdir E ?w ?p] => destruct (rmdir E w p) eqn:?
     | |- context [logging_exception E ?w ?p] =>
         destruct (logging_exception E w p) eqn:?
     end).

(** X10.  A service that needs a backup but has neither layer nor table is
    never sent to the export service: [lyrSeq] is unbound, the handler
    reports an error for the item and tries to remove its dated folder, and
    when that removal fails the run stops with OSError. *)
Theorem service_without_layers_is_not_exported :
  forall (E : Env) (cfg : Config.t) (full_backup : bool)
         (stale_list : option (list string)) (item : Item.t) (s : state E),
    Item.layers item = [] ->
    Item.tables item = [] ->
    needs_backup full_backup stale_list item = true ->
    exists evs ok,
      trace (snd (create_replica E cfg full_backup stale_list item s))
        = (evs ++ trace s)%list /\
      Forall quiet evs /\
      In (Print ("***Error exporting " ++ Item.title item ++ "***")) evs /\
      In (Rmdir (download_path cfg item) ok) evs /\
      (ok = false ->
       fst (create_replica E cfg full_backup stale_list item s) = Raise OSError).
Proof.
  intros E cfg full stale item s Hl Ht Hneeds.
  unfold create_replica, lyrSeq. rewrite Hneeds, Hl, Ht. simpl app.
  unfold check_create_folder, os_path_isdir, os_makedirs, os_rmdir, logging_exception_to,
    print, try_except, bind, emit, call, read, ret, raise.
  world_cases E.
  all: eexists; eexists; (split; [cbn [trace]; new_events|]).
  all: split; [repeat (apply Forall_cons; [unfold quiet; simpl; tauto|]); apply Forall_nil|].
  all: split; [simpl; tauto|].
  all: split; [simpl; eauto 10|].
  all: try discriminate; try reflexivity.
Qed.

(** X10 on a service without layers, in a full backup from an empty disk. *)
Lemma service_without_layers_is_not_exported_witness :
  exists evs ok,
    trace (snd (create_replica (Sample.env [] Sample.only_roads) Sample.cfg true None
                  (Item.mk "e" (Some "Empty") "Empty" "https://e" 1 true [] [])
                  (Sample.start [] Sample.only_roads)))
      = (evs ++ [])%list /\
    Forall quiet evs /\
    In (Print "***Error exporting Empty***") evs /\
    In (Rmdir (download_path Sample.cfg
                 (Item.mk "e" (Some "Empty") "Empty" "https://e" 1 true [] [])) ok) evs /\
    (ok = false ->
     fst (create_replica (Sample.env [] Sample.only_roads) Sample.cfg true None
            (Item.mk "e" (Some "Empty") "Empty" "https://e" 1 true [] [])
            (Sample.start [] Sample.only_roads)) = Raise OSError).
Proof.
  apply (service_without_layers_is_not_exported
           (Sample.env [] Sample.only_roads) Sample.cfg true None
           (Item.mk "e" (Some "Empty") "Empty" "https://e" 1 true [] [])
           (Sample.start [] Sample.only_roads));
    reflexivity.
Defined.

(** ** [move_items] *)

Lemma in_order_app : forall (P : event -> option event -> Prop) (evs1 evs2 : list event),
  (forall ev x, P ev None -> P ev (Some x)) ->
  in_order P evs1 -> in_order P evs2 -> in_order P (evs2 ++ evs1)%list.
Proof.
  intros P evs1 evs2 Hmono H1 H2 n ev H.
  destruct (Nat.lt_ge_cases n (List.length evs2)) as [Hn|Hn].
  - rewrite nth_error_app1 in H by assumption.
    specialize (H2 n ev H).
    destruct (Nat.lt_ge_cases (S n) (List.length evs2)) as [Hs|Hs].
    + now rewrite nth_error_app1 by assumption.
    + apply nth_error_None in Hs. rewrite Hs in H2.
      destruct (nth_error (evs2 ++ evs1) (S n)); [now apply Hmono | assumption].
  - rewrite nth_error_app2 in H by assumption.
    rewrite nth_error_app2 by lia.
    replace (S n - List.length evs2)%nat with (S (n - List.length evs2)) by lia.
    now apply H1.
Qed.

Lemma move_order_later : forall cfg full_backup stale_list item_list ev x,
  move_order cfg full_backup stale_list item_list ev None ->
  move_order cfg full_backup stale_list item_list ev (Some x).
Proof.
  intros cfg full stale item_list ev x. destruct ev; simpl; try tauto.
  - intros [(item & src & _ & _ & H)|(path & reason & _ & H)]; discriminate.
  - intros (item & _ & _ & H). discriminate.
  - intros (item & old_name & _ & _ & _ & _ & H). discriminate.
Qed.

Lemma move_item_order :
  forall (E : Env) cfg full_backup stale_list item_list item (s : state E),
    In item item_list ->
    exists s' evs,
      move_item E cfg full_backup stale_list item s = (Ok tt, s') /\
      trace s' = (evs ++ trace s)%list /\
      in_order (move_order cfg full_backup stale_list item_list) evs.
Proof.
  intros E cfg full stale item_list item s Hin. unfold move_item.
  destruct (needs_backup full stale item) eqn:Hneeds.
  - unfold try_except, try_except_OSError, os_listdir, os_rename, shutil_move, os_rmdir,
      print, bind, emit, call, read, ret.
    repeat
      (cbn beta iota delta [fst snd world trace];
       match goal with
       | |- context [listdir E ?w ?p] => destruct (listdir E w p) eqn:?
       | |- context [rename E ?w ?a ?b] => destruct (rename E w a b) eqn:?
       | |- context [move E ?w ?a ?b] => destruct (move E w a b) eqn:?
       | |- context [rmdir E ?w ?p] => destruct (rmdir E w p) eqn:?
       end).
    all: eexists; eexists; (split; [reflexivity|]); (split; [cbn [trace]; new_events|]).
    all: intros n ev Hn.
    all: repeat (destruct n as [|n]; simpl in Hn;
                 [injection Hn as <-; simpl; eauto 10|]).
    all: try discriminate.
    all: destruct n; discriminate.
  - exists s, []. repeat split. intros [|n] ev Hn; discriminate.
Qed.

(** X11.  [move_items] never raises, whatever the file system answers, and
    works in this order: an archive is moved to the canonical path of an
    item only right after it was renamed, with success, to the name of that
    item; the backup is announced completed only right after the move
    succeeded; the dated folder is removed only right after that; and the
    function calls neither the export service nor writes a file. *)
Theorem archives_move_in_order :
  forall (E : Env) (cfg : Config.t) (full_backup : bool)
         (stale_list : option (list string)) (item_list : list Item.t) (s : state E),
    exists s' evs,
      move_items E cfg full_backup stale_list item_list s = (Ok tt, s') /\
      trace s' = (evs ++ trace s)%list /\
      in_order (move_order cfg full_backup stale_list item_list) evs.
Proof.
  intros E cfg full stale item_list. unfold move_items.
  assert (H : forall l, incl l item_list -> forall s : state E,
             exists s' evs,
               for_each E l (move_item E cfg full stale) s = (Ok tt, s') /\
               trace s' = (evs ++ trace s)%list /\
               in_order (move_order cfg full stale item_list) evs).
  { induction l as [|item l IH]; intros Hl s.
    - exists s, []. repeat split. intros [|n] ev Hn; discriminate.
    - destruct (move_item_order E cfg full stale item_list item s) as (s1 & evs1 & H1 & T1 & O1).
      { apply Hl. now left. }
      destruct (IH (fun x Hx => Hl x (or_intror Hx)) s1) as (s2 & evs2 & H2 & T2 & O2).
      exists s2, (evs2 ++ evs1)%list. split; [|split].
      + simpl. unfold bind. now rewrite H1.
      + rewrite T2, T1. apply app_assoc.
      + apply in_order_app; [apply move_order_later | assumption | assumption]. }
  apply H. apply incl_refl.
Qed.

(** ** The run log once more *)

(** X12.  [create_run_log] gives one row per item, in the order of the
    list, with the identifier, name and title of the item and its
    canonical archive path; the status is "Backup still fresh" for an item
    that needs no backup and otherwise tells whether the archive opens.  It
    changes nothing in the world and prints one message per archive that
    does not open, in the order of the list. *)
Theorem run_log_lists_every_item :
  forall (E : Env) (cfg : Config.t) (full_backup : bool)
         (stale_list : option (list string)) (item_list : list Item.t) (s : state E),
    exists log_list s',
      create_run_log E cfg full_backup stale_list item_list s = (Ok log_list, s') /\
      world s' = world s /\
      Forall2
        (fun item r =>
           LogRow.item_id r = Item.id item /\
           LogRow.item_name r = Item.name item /\
           LogRow.item_title r = Item.title item /\
           LogRow.zip_path r = zip_path cfg item /\
           LogRow.status r =
             if needs_backup full_backup stale_list item
             then if ZipFile E (world s) (zip_path cfg item) then "success" else "fail"
             else "Backup still fresh")
        item_list log_list /\
      trace s' =
        (rev (map (fun item => Print (Item.title item ++ " backup is invalid or doesn't exist"))
                  (filter (fun item =>
                             needs_backup full_backup stale_list item &&
                             negb (ZipFile E (world s) (zip_path cfg item)))
                          item_list))
         ++ trace s)%list.
Proof.
  intros E cfg full stale item_list.
  induction item_list as [|item rest IH]; intros s.
  - exists [], s. repeat split. constructor.
  - destruct (needs_backup full stale item) eqn:Hneeds;
      [destruct (ZipFile E (world s) (zip_path cfg item)) eqn:Hzip|].
    + destruct (IH s) as (log_list & s2 & Hrun & Hw & Hrows & Htr).
      eexists. exists s2. split; [|split; [exact Hw|split]].
      * cbn [create_run_log]. unfold check_zip, read, ret, bind.
        rewrite Hneeds. cbn beta iota. rewrite Hzip, Hrun. reflexivity.
      * constructor; [|exact Hrows]. cbn [LogRow.item_id LogRow.item_name LogRow.item_title LogRow.zip_path LogRow.status]. rewrite Hneeds, Hzip. repeat split.
      * cbn [filter]. rewrite Hneeds, Hzip. exact Htr.
    + destruct (IH (Build_state E (world s)
                      (Print (Item.title item ++ " backup is invalid or doesn't exist")
                       :: trace s)))
        as (log_list & s2 & Hrun & Hw & Hrows & Htr).
      cbn [world trace] in Hw, Hrows, Htr, Hrun.
      eexists. exists s2. split; [|split; [exact Hw|split]].
      * cbn [create_run_log]. unfold check_zip, read, print, emit, ret, bind.
        rewrite Hneeds. cbn beta iota. rewrite Hzip. cbn beta iota.
        rewrite Hrun. reflexivity.
      * constructor; [|exact Hrows]. cbn [LogRow.item_id LogRow.item_name LogRow.item_title LogRow.zip_path LogRow.status]. rewrite Hneeds, Hzip. repeat split.
      * cbn [filter]. rewrite Hneeds, Hzip. cbn [andb negb map rev].
        rewrite Htr, <- app_assoc. reflexivity.
    + destruct (IH s) as (log_list & s2 & Hrun & Hw & Hrows & Htr).
      eexists. exists s2. split; [|split; [exact Hw|split]].
      * cbn [create_run_log]. unfold bind, ret. rewrite Hneeds, Hrun. reflexivity.
      * constructor; [|exact Hrows]. cbn [LogRow.item_id LogRow.item_name LogRow.item_title LogRow.zip_path LogRow.status]. rewrite Hneeds. repeat split.
      * cbn [filter]. rewrite Hneeds. exact Htr.
Qed.

(** ** The commit once more *)

Lemma update_logs_result :
  forall (E : Env) cfg full_backup stale_list item_list success_log_df (s : state E),
    let run_df := run_log_of E cfg full_backup stale_list (world s) item_list in
    match update_df success_log_df (successes cfg run_df) with
    | Ok (df', _) =>
        exists s',
          update_logs E cfg full_backup stale_list item_list success_log_df s
            = (Ok (run_df, df'), s')
    | Raise e =>
        exists s',
          update_logs E cfg full_backup stale_list item_list success_log_df s
            = (Raise e, s')
    end.
Proof.
  intros E cfg full stale item_list L s run_df. unfold update_logs.
  destruct (export_run_log_spec E cfg full stale item_list s)
    as (run_df' & s1 & evs1 & Hrun & _ & Hdf & _).
  fold run_df in Hdf. subst run_df'.
  rewrite (bind_ok _ _ _ _ _ _ _ _ Hrun).
  destruct (update_df L (successes cfg run_df)) as [[df' updated_df]|e] eqn:Hup.
  - rewrite (bind_ok _ _ _ _ _ s1 (df', updated_df) s1) by reflexivity.
    simpl fst.
    destruct (total_export_df E (LedgerCsv df') (success_log_csv_path cfg) s1) as [ok Hok].
    destruct (export_df E (LedgerCsv df') (success_log_csv_path cfg) s1) as [r s2] eqn:Hexp.
    simpl in Hok. subst r.
    rewrite (bind_ok _ _ _ _ _ _ _ _ Hexp). now exists s2.
  - rewrite (bind_raise _ _ _ _ _ s1 e s1) by reflexivity. now exists s1.
Qed.

(** X13.  Over at least one item (with none the run log has no [status]
    column to select on), the commit keeps the frame of the ledger: no record is added,
    dropped or moved; [url], [updated_ts], [last_edit_date] and
    [last_edit_date_ts] stay as they were; a record is either untouched or
    belongs to an item of the run whose archive opens, and then holds the
    time of the run, as a number and as text, and the canonical archive
    path.  The only exception is ValueError, with an identifier fetched
    twice. *)
Theorem commit_keeps_the_ledger_frame :
  forall (E : Env) (cfg : Config.t) (full_backup : bool)
         (stale_list : option (list string)) (item_list : list Item.t)
         (success_log_df : frame) (s : state E),
    item_list <> [] ->
    match update_logs E cfg full_backup stale_list item_list success_log_df s with
    | (Ok (_, df'), _) =>
        Forall2
          (fun r r' =>
             LedgerRow.item_id r' = LedgerRow.item_id r /\
             LedgerRow.url r' = LedgerRow.url r /\
             LedgerRow.updated_ts r' = LedgerRow.updated_ts r /\
             LedgerRow.last_edit_date r' = LedgerRow.last_edit_date r /\
             LedgerRow.last_edit_date_ts r' = LedgerRow.last_edit_date_ts r /\
             (r' = r \/
              exists item,
                In item item_list /\
                Item.id item = LedgerRow.item_id r /\
                needs_backup full_backup stale_list item = true /\
                ZipFile E (world s) (zip_path cfg item) = true /\
                LedgerRow.backup_ts r' = Some (Config.ts_today cfg) /\
                LedgerRow.backup_date r' = Some (stamp_to_text (Config.ts_today cfg)) /\
                LedgerRow.zip_path r' = Some (zip_path cfg item)))
          success_log_df df'
    | (Raise e, _) => e = ValueError /\ ~ NoDup (map Item.id item_list)
    end.
Proof.
  intros E cfg full stale item_list L s _.
  pose proof (update_logs_result E cfg full stale item_list L s) as H.
  cbv zeta in H.
  destruct (update_df L (successes cfg (run_log_of E cfg full stale (world s) item_list)))
    as [[df' updated_df]|e] eqn:Hup.
  - destruct H as [s' ->].
    apply update_df_updated_by in Hup. destruct Hup as [Hrows _].
    eapply Forall2_impl; [|exact Hrows].
    intros r r' [->|(u & Hu & Hid & ->)].
    + repeat split. now left.
    + rewrite successes_run_log_of in Hu. apply in_map_iff in Hu.
      destruct Hu as (item & <- & Hitem). apply filter_In in Hitem.
      destruct Hitem as [Hin Hst]. apply String.eqb_eq in Hst.
      apply status_success in Hst. destruct Hst as [Hneeds Hzip].
      repeat split. right. exists item. repeat split; assumption.
  - destruct H as [s' ->]. unfold update_df in Hup.
    destruct (update L (successes cfg (run_log_of E cfg full stale (world s) item_list)))
      eqn:Hu; [discriminate|].
    injection Hup as ->. split; [now apply update_raises_ValueError in Hu|].
    intros Hnd.
    rewrite update_NoDup in Hu; [discriminate|].
    now apply NoDup_keys_successes.
Qed.

(** X13 on a full backup of one service whose archive is on the disk. *)
Lemma commit_keeps_the_ledger_frame_witness :
  match update_logs (Sample.env [Sample.roads] Sample.only_roads) Sample.cfg true None
          [Sample.roads] [Sample.backed_up "a" "Roads" 5 9]
          (Build_state (Sample.env [Sample.roads] Sample.only_roads)
             (Sample.Build_disk [] [zip_path Sample.cfg Sample.roads]) []) with
  | (Ok (_, df'), _) =>
      Forall2
        (fun r r' =>
           LedgerRow.item_id r' = LedgerRow.item_id r /\
           LedgerRow.url r' = LedgerRow.url r /\
           LedgerRow.updated_ts r' = LedgerRow.updated_ts r /\
           LedgerRow.last_edit_date r' = LedgerRow.last_edit_date r /\
           LedgerRow.last_edit_date_ts r' = LedgerRow.last_edit_date_ts r /\
           (r' = r \/
            exists item,
              In item [Sample.roads] /\
              Item.id item = LedgerRow.item_id r /\
              needs_backup true None item = true /\
              ZipFile (Sample.env [Sample.roads] Sample.only_roads)
                (Sample.Build_disk [] [zip_path Sample.cfg Sample.roads])
                (zip_path Sample.cfg item) = true /\
              LedgerRow.backup_ts r' = Some (Config.ts_today Sample.cfg) /\
              LedgerRow.backup_date r' = Some (stamp_to_text (Config.ts_today Sample.cfg)) /\
              LedgerRow.zip_path r' = Some (zip_path Sample.cfg item)))
        [Sample.backed_up "a" "Roads" 5 9] df'
  | (Raise e, _) => e = ValueError /\ ~ NoDup (map Item.id [Sample.roads])
  end.
Proof.
  apply (commit_keeps_the_ledger_frame
           (Sample.env [Sample.roads] Sample.only_roads) Sample.cfg true None
           [Sample.roads] [Sample.backed_up "a" "Roads" 5 9]
           (Build_state (Sample.env [Sample.roads] Sample.only_roads)
              (Sample.Build_disk [] [zip_path Sample.cfg Sample.roads]) [])).
  discriminate.
Defined.

(** ** The exceptions of a run *)







Lemma update_df_raises : forall df updating_df,
  ~ NoDup (keys updating_df) ->
  keys updating_df <> keys df ->
  update_df df updating_df = Raise ValueError.
Proof.
  intros df upd Hnd Hk. unfold update_df, update, reindex_like.
  destruct (list_eqb (keys upd) (keys df)) eqn:Heq.
  - apply list_eqb_eq in Heq. now elim Hk.
  - destruct (unique (keys upd)) eqn:Hu; [|reflexivity].
    apply unique_NoDup in Hu. now elim Hnd.
Qed.

(** X15.  With a ledger on file, an identifier fetched twice stops the run
    on ValueError at the classification, unless the identifiers fetched
    are, one by one, those of the ledger: nothing has been written, created
    or exported by then, only the list of items printed. *)
Theorem identifier_fetched_twice_stops_the_run :
  forall (E : Env) (cfg : Config.t) (item_csv : list string)
         (success_log_df : frame) (s : state E),
    ~ NoDup (map Item.id (flat_map (search E (world s)) item_csv)) ->
    map Item.id (flat_map (search E (world s)) item_csv) <> keys success_log_df ->
    main E cfg item_csv (Some success_log_df) s =
      (Raise ValueError,
       Build_state E (world s)
         (PrintItems (flat_map (search E (world s)) item_csv)
          :: Print (nl ++ "List of ArcGIS Online items to backup:")
          :: trace s)).
Proof.
  intros E cfg item_csv L s Hnd Hk.
  destruct item_csv as [|x l].
  { elim Hnd. constructor. }
  remember (flat_map (search E (world s)) (x :: l)) as item_list eqn:Hitems.
  unfold main, search_items, open_success_log, bind, read, print, emit, ret.
  cbn beta iota delta [world trace fst snd]. rewrite <- Hitems.
  destruct item_list as [|item rest].
  { elim Hnd. constructor. }
  unfold merge_items, bind, lift.
  rewrite update_df_raises; [reflexivity | now rewrite keys_items_df | now rewrite keys_items_df].
Qed.

(** X15 on a file that lists "a" twice, with a ledger of "a" and "b". *)
Lemma identifier_fetched_twice_stops_the_run_witness :
  main (Sample.env [Sample.roads] Sample.only_roads) Sample.cfg ["a"; "a"]
       (Some [Sample.backed_up "a" "Roads" 5 9; Sample.backed_up "b" "Wells" 5 9])
       (Sample.start [Sample.roads] Sample.only_roads) =
    (Raise ValueError,
     Build_state (Sample.env [Sample.roads] Sample.only_roads) Sample.fresh_disk
       [PrintItems [Sample.roads; Sample.roads];
        Print (nl ++ "List of ArcGIS Online items to backup:")]).
Proof.
  apply (identifier_fetched_twice_stops_the_run
           (Sample.env [Sample.roads] Sample.only_roads) Sample.cfg ["a"; "a"]
           [Sample.backed_up "a" "Roads" 5 9; Sample.backed_up "b" "Wells" 5 9]
           (Sample.start [Sample.roads] Sample.only_roads)).
  - intros H. apply unique_NoDup in H. vm_compute in H. discriminate.
  - vm_compute. discriminate.
Defined.

(** ** From the commit to the next stale query *)

Lemma query_after_commit :
  forall (E : Env) cfg full_backup stale_list item_list (w : World E) item r,
    NoDup (map Item.id item_list) ->
    In item item_list ->
    needs_backup full_backup stale_list item = true ->
    ZipFile E w (zip_path cfg item) = true ->
    LedgerRow.item_id r = Item.id item ->
    query (merge_lookup (successes cfg (run_log_of E cfg full_backup stale_list w item_list)) r)
    = match LedgerRow.last_edit_date_ts r with
      | Some e => Config.ts_today cfg <? e
      | None => false
      end.
Proof.
  intros E cfg full stale item_list w item r Hnd Hin Hneeds Hzip Hid.
  unfold merge_lookup. rewrite Hid, loc1_successes by assumption.
  assert (Hst : status_of E cfg full stale w item = "success")
    by (apply status_success; now split).
  rewrite Hst. simpl. unfold query. simpl.
  rewrite Z.eqb_refl. simpl. rewrite orb_false_r.
  now destruct (LedgerRow.last_edit_date_ts r).
Qed.

(** X16.  From the commit to the next stale query: with distinct
    identifiers, an item of the run whose archive opens is listed stale by
    the query on the committed ledger only when a record of the ledger with
    its identifier holds an edit later than the time of the run.  So another
    run without a new edit leaves the item alone. *)
Theorem verified_item_is_stale_only_if_edited_later :
  forall (E : Env) (cfg : Config.t) (full_backup : bool)
         (stale_list0 : option (list string)) (item_list : list Item.t)
         (success_log_df : frame) (s : state E) (item : Item.t),
    NoDup (map Item.id item_list) ->
    In item item_list ->
    needs_backup full_backup stale_list0 item = true ->
    ZipFile E (world s) (zip_path cfg item) = true ->
    exists run_df df' s',
      update_logs E cfg full_backup stale_list0 item_list success_log_df s
        = (Ok (run_df, df'), s') /\
      (In (Item.id item) (stale_list df') <->
       exists r e,
         In r success_log_df /\
         LedgerRow.item_id r = Item.id item /\
         LedgerRow.last_edit_date_ts r = Some e /\
         Config.ts_today cfg < e).
Proof.
  intros E cfg full stale item_list L s item Hnd Hin Hneeds Hzip.
  destruct (update_logs_spec E cfg full stale item_list L s Hnd)
    as (logs & s' & evs & Hrun & _ & Hlogs & _).
  cbv zeta in Hlogs. subst logs.
  eexists. eexists. exists s'. split; [exact Hrun|].
  rewrite In_stale_list. split.
  - intros (r' & Hr' & Hid & Hq). apply in_map_iff in Hr'.
    destruct Hr' as (r & <- & Hr).
    unfold merge_lookup in Hid. rewrite item_id_update_opt in Hid.
    rewrite (query_after_commit E cfg full stale item_list (world s) item r) in Hq
      by assumption.
    destruct (LedgerRow.last_edit_date_ts r) as [e|] eqn:He; [|discriminate].
    exists r, e. repeat split; try assumption. now apply Z.ltb_lt.
  - intros (r & e & Hr & Hid & He & Hlt).
    exists (merge_lookup
              (successes cfg (run_log_of E cfg full stale (world s) item_list)) r).
    split; [now apply in_map|]. split.
    + unfold merge_lookup. now rewrite item_id_update_opt.
    + rewrite (query_after_commit E cfg full stale item_list (world s) item r)
        by assumption.
      rewrite He. now apply Z.ltb_lt.
Qed.

(** X16 on a full backup of one service whose archive is on the disk. *)
Lemma verified_item_is_stale_only_if_edited_later_witness :
  exists run_df df' s',
    update_logs (Sample.env [Sample.roads] Sample.only_roads) Sample.cfg true None
      [Sample.roads] [Sample.backed_up "a" "Roads" 5 9]
      (Build_state (Sample.env [Sample.roads] Sample.only_roads)
         (Sample.Build_disk [] [zip_path Sample.cfg Sample.roads]) [])
      = (Ok (run_df, df'), s') /\
    (In (Item.id Sample.roads) (stale_list df') <->
     exists r e,
       In r [Sample.backed_up "a" "Roads" 5 9] /\
       LedgerRow.item_id r = Item.id Sample.roads /\
       LedgerRow.last_edit_date_ts r = Some e /\
       Config.ts_today Sample.cfg < e).
Proof.
  apply (verified_item_is_stale_only_if_edited_later
           (Sample.env [Sample.roads] Sample.only_roads) Sample.cfg true None
           [Sample.roads] [Sample.backed_up "a" "Roads" 5 9]
           (Build_state (Sample.env [Sample.roads] Sample.only_roads)
              (Sample.Build_disk [] [zip_path Sample.cfg Sample.roads]) [])
           Sample.roads).
  - apply unique_NoDup. reflexivity.
  - simpl. tauto.
  - reflexivity.
  - vm_compute. reflexivity.
Defined.

(** ** Every selected service is sent *)

Lemma create_replica_sends :
  forall (E : Env) cfg full_backup stale_list item (s : state E),
    cleanup_succeeds E ->
    completes E (create_replica E cfg full_backup stale_list item) s
      (fun _ _ evs =>
         needs_backup full_backup stale_list item = true ->
         forall layers,
           lyrSeq item = Some layers ->
           exists ok,
             In (CreateReplica item (Item.title item ++ "_" ++ Config.date_today cfg)
                   layers (download_path cfg item) ok) evs).
Proof.
  intros E cfg full stale item s [Hrm Hlog].
  unfold completes, create_replica.
  destruct (needs_backup full stale item).
  - destruct (lyrSeq item) as [layers|] eqn:Hlayers.
    + unfold check_create_folder, os_path_isdir, os_makedirs, os_rmdir,
        logging_exception_to, data_replicas_create, print, try_except, bind, emit, call,
        read, ret, raise.
      repeat
        (cbn beta iota delta [fst snd world trace negb];
         match goal with
         | |- context [isdir E ?w ?p] => destruct (isdir E w p) eqn:?
         | |- context [makedirs E ?w ?p] => destruct (makedirs E w p) eqn:?
         | |- context [rmdir E ?w ?p] =>
             let H := fresh "Hr" in destruct (rmdir E w p) eqn:H; [|now apply Hrm in H]
         | |- context [logging_exception E ?w ?p] =>
             let H := fresh "Hl" in
             destruct (logging_exception E w p) eqn:H; [|now apply Hlog in H]
         | |- context [replicas_create E ?w ?i ?n ?l ?o] =>
             destruct (replicas_create E w i n l o) as [? [|]] eqn:?
         end).
      all: eexists; eexists; eexists; (split; [reflexivity|]);
        (split; [cbn [trace]; new_events|]).
      all: intros _ layers' Heq; injection Heq as <-; eexists; simpl; eauto 12.
    + unfold check_create_folder, os_path_isdir, os_makedirs, os_rmdir,
        logging_exception_to, print, try_except, bind, emit, call, read, ret, raise.
      repeat
        (cbn beta iota delta [fst snd world trace negb];
         match goal with
         | |- context [isdir E ?w ?p] => destruct (isdir E w p) eqn:?
         | |- context [makedirs E ?w ?p] => destruct (makedirs E w p) eqn:?
         | |- context [rmdir E ?w ?p] =>
             let H := fresh "Hr" in destruct (rmdir E w p) eqn:H; [|now apply Hrm in H]
         | |- context [logging_exception E ?w ?p] =>
             let H := fresh "Hl" in
             destruct (logging_exception E w p) eqn:H; [|now apply Hlog in H]
         end).
      all: eexists; eexists; eexists; (split; [reflexivity|]);
        (split; [cbn [trace]; new_events|]).
      all: intros _ layers' Heq; discriminate.
  - exists tt, s, []. repeat split. discriminate.
Qed.

(** X17.  When removing a folder and writing to the error log never fail,
    the export loop reaches its end and has sent every item of the list
    that needs a backup and has a layer or a table to the export service,
    under the replica name [<title>_<date>], with the layer numbers of the
    item and its dated folder as [out_path]. *)
Theorem every_selected_service_is_sent :
  forall (E : Env) (cfg : Config.t) (full_backup : bool)
         (stale_list : option (list string)) (item_list : list Item.t) (s : state E),
    cleanup_succeeds E ->
    completes E (for_each E item_list (create_replica E cfg full_backup stale_list)) s
      (fun _ _ evs =>
         forall item layers,
           In item item_list ->
           needs_backup full_backup stale_list item = true ->
           lyrSeq item = Some layers ->
           exists ok,
             In (CreateReplica item (Item.title item ++ "_" ++ Config.date_today cfg)
                   layers (download_path cfg item) ok) evs).
Proof.
  intros E cfg full stale item_list s Hclean. revert s.
  induction item_list as [|x rest IH]; intros s.
  - apply completes_ret. intros item layers [].
  - simpl. eapply completes_bind; [apply create_replica_sends; assumption|].
    intros u s1 evs1 _ _ H1.
    eapply completes_weaken; [apply IH|].
    intros u2 w evs2 H2 item layers [<-|Hin] Hneeds Hlayers.
    + destruct (H1 Hneeds layers Hlayers) as [ok Hok].
      exists ok. apply in_or_app. now right.
    + destruct (H2 item layers Hin Hneeds Hlayers) as [ok Hok].
      exists ok. apply in_or_app. now left.
Qed.

(** X17 on a full backup of two services, where folders can always be
    removed. *)
Lemma every_selected_service_is_sent_witness :
  completes (Sample.forgiving [Sample.roads; Sample.wells] Sample.only_roads)
    (for_each (Sample.forgiving [Sample.roads; Sample.wells] Sample.only_roads)
       [Sample.roads; Sample.wells]
       (create_replica (Sample.forgiving [Sample.roads; Sample.wells] Sample.only_roads)
          Sample.cfg true None))
    (Build_state (Sample.forgiving [Sample.roads; Sample.wells] Sample.only_roads)
       Sample.fresh_disk [])
    (fun _ _ evs =>
       forall item layers,
         In item [Sample.roads; Sample.wells] ->
         needs_backup true None item = true ->
         lyrSeq item = Some layers ->
         exists ok,
           In (CreateReplica item (Item.title item ++ "_" ++ Config.date_today Sample.cfg)
                 layers (download_path Sample.cfg item) ok) evs).
Proof.
  apply (every_selected_service_is_sent
           (Sample.forgiving [Sample.roads; Sample.wells] Sample.only_roads)
           Sample.cfg true None [Sample.roads; Sample.wells]
           (Build_state (Sample.forgiving [Sample.roads; Sample.wells] Sample.only_roads)
              Sample.fresh_disk [])).
  split; intros w p; discriminate.
Defined.
